(** * The blog content loader of ReactJon ([src/lib/blog.ts])

    A shallow embedding of [getBlogPosts] and [getBlogPost] together with
    the parts of the JavaScript runtime and of Node they call: string
    methods, object literals with spread, [Array.prototype.sort], [Date],
    [path.join] and the synchronous [fs] calls.  The two npm packages the
    loader imports ([gray-matter], [reading-time]) and the host dependent
    built-ins are operations of the class [Runtime]. *)

From Stdlib Require Import ZArith String Ascii List Permutation Sorted Lia.
From Stdlib Require Import PrimFloat SpecFloat FloatOps.
From stdpp Require Import base option list strings gmap pretty sorting.

Local Open Scope Z_scope.

(** ** Completions: a call returns a value or throws *)

Inductive JsError : Type :=
| SystemError (code path : string)   (* thrown by [fs]: ENOENT, EISDIR, ... *)
| TypeError (message : string)
| LibraryError (message : string).   (* thrown inside an npm package *)

Inductive completion (A : Type) : Type :=
| Return (a : A)
| Throw (e : JsError).
Arguments Return {A} a.
Arguments Throw {A} e.

Definition bind {A B : Type} (k : A -> completion B) (c : completion A)
  : completion B :=
  match c with
  | Return a => k a
  | Throw e => Throw e
  end.

(** Sequencing is written [x ← c; k], the notation of stdpp's [MBind]. *)
#[global] Instance completion_bind : MBind completion := @bind.
#[global] Instance completion_ret : MRet completion := @Return.

(** [try { body } catch (error) { handler }] *)
Definition try_catch {A : Type} (body : completion A)
    (handler : JsError -> completion A) : completion A :=
  match body with
  | Return a => Return a
  | Throw e => handler e
  end.

(** [xs.map(f)] for a callback that may throw: elements are visited in
    index order and the first exception ends the call. *)
Fixpoint Array_map {A B : Type} (f : A -> completion B) (xs : list A)
  : completion (list B) :=
  match xs with
  | [] => Return []
  | x :: xs' => y ← f x; ys ← Array_map f xs'; Return (y :: ys)
  end.

(** ** Strings *)

(** [s.endsWith(suffix)]: compares the last [suffix.length] characters. *)
Definition endsWith (s suffix : string) : bool :=
  let n := String.length s in
  let m := String.length suffix in
  if (m <=? n)%nat then String.eqb (substring (n - m) m s) suffix else false.

(** [file.replace(/\.mdx$/, '')]: the pattern is anchored at the end of the
    input (no [m] flag), so the only possible match is a final [".mdx"]. *)
Definition replace_mdx_end (file : string) : string :=
  if endsWith file ".mdx"
  then substring 0 (String.length file - 4) file
  else file.

(** ** Values *)

(** Front matter is YAML (or JSON): null, booleans, numbers, strings,
    timestamps ([Date] objects), sequences and mappings.  A number is a
    binary64 float, as in JavaScript; a [Date] holds its time value in
    milliseconds, [None] being NaN (an invalid date).  Objects are maps
    from property names to values: the loader only reads properties by
    name, so the enumeration order is not kept.  Strings are byte strings;
    they agree with JavaScript's on ASCII text. *)
#[warnings="-register-all"]
Inductive JsValue : Type :=
| JUndefined
| JNull
| JBool (b : bool)
| JNum (x : float)
| JStr (s : string)
| JDate (t : option Z)
| JArr (elements : list JsValue)
| JObj (properties : gmap string JsValue).

Abbreviation JsObject := (gmap string JsValue).

(** ToBoolean *)
Definition truthy (v : JsValue) : bool :=
  match v with
  | JUndefined | JNull => false
  | JBool b => b
  | JNum x => negb (PrimFloat.is_zero x || PrimFloat.is_nan x)
  | JStr s => negb (String.eqb s "")
  | JDate _ | JArr _ | JObj _ => true
  end.

(** [a || b] *)
Definition js_or (a b : JsValue) : JsValue := if truthy a then a else b.

(** The own enumerable string-keyed properties of a value, which is what
    a spread [...v] in an object literal copies (CopyDataProperties):
    the entries of a mapping, the indices of a sequence or of a string,
    nothing for the other values. *)
Definition index_properties (xs : list JsValue) : JsObject :=
  list_to_map (zip (pretty <$> seq 0 (length xs)) xs).

Definition own_properties (v : JsValue) : JsObject :=
  match v with
  | JObj m => m
  | JArr xs => index_properties xs
  | JStr s =>
      index_properties ((fun c => JStr (String c "")) <$> list_ascii_of_string s)
  | _ => ∅
  end.

(** [v.key] for one of the keys the loader reads ([title], [date],
    [excerpt], [tags]).  None of them is inherited from a standard
    prototype or is a non-enumerable own property such as [length], so
    the own enumerable properties decide; reading a property of [null] or
    [undefined] throws. *)
Definition get (v : JsValue) (key : string) : completion JsValue :=
  match v with
  | JUndefined | JNull =>
      Throw (TypeError "Cannot read properties of null or undefined")
  | _ => Return (default JUndefined (own_properties v !! key))
  end.

(** Object literals.  Property definitions are evaluated left to right;
    a later definition of a key replaces the earlier value. *)
Inductive PropertyDefinition : Type :=
| Field (key : string) (value : JsValue)   (* [key: value] and [key] *)
| Spread (v : JsValue).                    (* [...v] *)

Definition define (o : JsObject) (d : PropertyDefinition) : JsObject :=
  match d with
  | Field k v => <[k := v]> o
  | Spread v => own_properties v ∪ o
  end.

Definition object_literal (ds : list PropertyDefinition) : JsObject :=
  fold_left define ds ∅.

(** [o.key] on an object the loader built itself. *)
Definition prop (o : JsObject) (key : string) : JsValue :=
  default JUndefined (o !! key).

(** ** Numbers that are time values

    A time value is an integer number of milliseconds or NaN, here
    [option Z] with [None] for NaN.  Time values are bounded by 8.64e15 in
    magnitude, so the binary64 difference of two of them has the sign of
    the exact difference, and the sign is all that [sort] reads. *)
Definition number_sub (x y : option Z) : option Z :=
  match x, y with
  | Some a, Some b => Some (a - b)
  | _, _ => None
  end.

(** TimeClip(ToNumber(x)) for a number [x]: NaN when [x] is not finite or
    exceeds 8.64e15 in magnitude, else [x] truncated towards zero. *)
Definition TimeClip (x : float) : option Z :=
  match Prim2SF x with
  | S754_zero _ => Some 0
  | S754_finite negative m e =>
      let z := if 0 <=? e then Z.pos m * 2 ^ e else Z.pos m / 2 ^ (- e) in
      if z <=? 8640000000000000
      then Some (if negative then - z else z)
      else None
  | _ => None
  end.

(** ** [Array.prototype.sort]

    ECMAScript fixes the result of [xs.sort(comparefn)] when [comparefn]
    is a consistent comparator: the stable arrangement in which [a] comes
    before [b] whenever [comparefn(a, b) < 0].  Otherwise the order is up
    to the implementation.  The model is a stable insertion sort; a NaN
    from [comparefn] is read as [+0], and an exception thrown by
    [comparefn] ends the call. *)
Definition comes_after (v : option Z) : bool :=
  match v with
  | Some z => 0 <? z
  | None => false
  end.

Fixpoint sort_insert {A : Type} (comparefn : A -> A -> completion (option Z))
    (x : A) (sorted : list A) : completion (list A) :=
  match sorted with
  | [] => Return [x]
  | y :: rest =>
      v ← comparefn x y;
      if comes_after v
      then (r ← sort_insert comparefn x rest; Return (y :: r))
      else Return (x :: sorted)
  end.

Fixpoint Array_sort {A : Type} (comparefn : A -> A -> completion (option Z))
    (xs : list A) : completion (list A) :=
  match xs with
  | [] => Return []
  | x :: xs' => s ← Array_sort comparefn xs'; sort_insert comparefn x s
  end.

(** ** [path] (POSIX) *)

Module path.

(** [s.split('/')] *)
Fixpoint split (s : string) : list string :=
  match s with
  | EmptyString => [EmptyString]
  | String c s' =>
      if Ascii.eqb c "/" then EmptyString :: split s'
      else match split s' with
           | [] => [String c EmptyString]
           | segment :: segments => String c segment :: segments
           end
  end.

(** One segment of [normalizeString].  [stack] holds the segments kept
    so far, the last one first. *)
Definition normalize_step (allowAboveRoot : bool) (stack : list string)
    (segment : string) : list string :=
  if String.eqb segment "" || String.eqb segment "." then stack
  else if String.eqb segment ".." then
    match stack with
    | last :: below =>
        if String.eqb last ".."
        then (if allowAboveRoot then ".." :: stack else stack)
        else below
    | [] => if allowAboveRoot then [".."] else []
    end
  else segment :: stack.

(** [normalizeString(path, allowAboveRoot, '/')]: Node scans the
    characters; segment by segment it drops empty and ["."] segments,
    lets [".."] remove the segment before it, and keeps a leading
    [".."] only when [allowAboveRoot]. *)
Definition normalizeString (p : string) (allowAboveRoot : bool) : string :=
  String.concat "/" (rev (fold_left (normalize_step allowAboveRoot) (split p) [])).

Definition normalize (p : string) : string :=
  if String.eqb p "" then "."
  else
    let isAbsolute := String.prefix "/" p in
    let trailingSeparator := endsWith p "/" in
    let p' := normalizeString p (negb isAbsolute) in
    if String.eqb p' "" then
      if isAbsolute then "/" else if trailingSeparator then "./" else "."
    else
      let p' := if trailingSeparator then p' +:+ "/" else p' in
      if isAbsolute then "/" +:+ p' else p'.

Definition join (paths : list string) : string :=
  match filter (fun arg => negb (String.eqb arg "")) paths with
  | [] => "."
  | parts => normalize (String.concat "/" parts)
  end.

End path.

(** ** [fs]

    The state of the disk, by normalized absolute path: a regular file
    with its text as [utf8] decodes it, a directory with the names
    [readdirSync] lists (in the order it lists them), or an entry that
    exists but can be neither read nor listed.  A listed name need not
    have an entry: a dangling link. *)
Inductive Node : Type :=
| File (text : string)
| Directory (entries : list string)
| Denied.

Abbreviation FileSystem := (gmap string Node).

Module fs.

Definition existsSync (disk : FileSystem) (p : string) : bool :=
  bool_decide (is_Some (disk !! p)).

Definition readdirSync (disk : FileSystem) (p : string)
  : completion (list string) :=
  match disk !! p with
  | Some (Directory entries) => Return entries
  | Some (File _) => Throw (SystemError "ENOTDIR" p)
  | Some Denied => Throw (SystemError "EACCES" p)
  | None => Throw (SystemError "ENOENT" p)
  end.

(** [fs.readFileSync(p, 'utf8')] *)
Definition readFileSync (disk : FileSystem) (p : string) : completion string :=
  match disk !! p with
  | Some (File text) => Return text
  | Some (Directory _) => Throw (SystemError "EISDIR" p)
  | Some Denied => Throw (SystemError "EACCES" p)
  | None => Throw (SystemError "ENOENT" p)
  end.

End fs.

(** ** The imports of [blog.ts] and the host *)

(** What [matter(input)] returns; the loader reads [data] and [content]. *)
Record GrayMatterFile : Type := { data : JsValue; content : string }.

(** What [readingTime(text)] returns; the loader reads [text]. *)
Record ReadTimeResults : Type := { text : string; words : Z }.

Class Runtime : Type := {
  (** [process.cwd()]: the absolute path of the working directory *)
  cwd : string;
  (** [gray-matter]: splits a file into front matter and body; throws on
      front matter that does not parse *)
  matter : string -> completion GrayMatterFile;
  (** [reading-time] *)
  readingTime : string -> ReadTimeResults;
  (** [Date.parse]: the time value of a date string, NaN ([None]) when the
      string is not a date; the accepted formats beyond ISO 8601 depend on
      the engine *)
  Date_parse : string -> option Z;
  (** ToPrimitive of a sequence or mapping: the string its [toString]
      gives, or a TypeError when the mapping has a key [toString] *)
  ToPrimitive : JsValue -> completion string;
}.

(** A post is a plain object: the fields of the type [BlogPost] and, by its
    index signature, any other key of the front matter. *)
Abbreviation BlogPost := (gmap string JsValue).

Section Blog.
Context `{Runtime}.

(** [new Date(v).getTime()] *)
Definition Date_getTime (v : JsValue) : completion (option Z) :=
  match v with
  | JDate t => Return t
  | JUndefined => Return None
  | JNull => Return (Some 0)
  | JBool b => Return (Some (if b then 1 else 0))
  | JNum x => Return (TimeClip x)
  | JStr s => Return (Date_parse s)
  | JArr _ | JObj _ => s ← ToPrimitive v; Return (Date_parse s)
  end.

Definition contentDirectory : string := path.join [cwd; "src/content/blog"].

Definition getBlogPosts (disk : FileSystem) : completion (list BlogPost) :=
  (* Ensure the directory exists *)
  if negb (fs.existsSync disk contentDirectory) then Return []
  else
    files ← fs.readdirSync disk contentDirectory;
    posts ←
      Array_map
        (fun file =>
           let filePath := path.join [contentDirectory; file] in
           fileContents ← fs.readFileSync disk filePath;
           parsed ← matter fileContents;
           let '{| data := data; content := content |} := parsed in
           let slug := replace_mdx_end file in
           let readingTimeResult := readingTime content in
           title ← get data "title";
           date ← get data "date";
           excerpt ← get data "excerpt";
           tags ← get data "tags";
           Return (object_literal
             [ Field "slug" (JStr slug);
               Field "title" title;
               Field "date" date;
               Field "excerpt" (js_or excerpt (JStr ""));
               Field "tags" (js_or tags (JArr []));
               Field "readingTime" (JStr (text readingTimeResult));
               Field "content" (JStr content);
               Spread data ]))
        (filter (fun file => endsWith file ".mdx") files);
    Array_sort
      (fun a b =>
         tb ← Date_getTime (prop b "date");
         ta ← Date_getTime (prop a "date");
         Return (number_sub tb ta))
      posts.

Definition getBlogPost (disk : FileSystem) (slug : string)
  : completion (option BlogPost) :=
  try_catch
    (let filePath := path.join [contentDirectory; slug +:+ ".mdx"] in
     fileContents ← fs.readFileSync disk filePath;
     parsed ← matter fileContents;
     let '{| data := data; content := content |} := parsed in
     let readingTimeResult := readingTime content in
     title ← get data "title";
     date ← get data "date";
     excerpt ← get data "excerpt";
     tags ← get data "tags";
     Return (Some (object_literal
       [ Field "slug" (JStr slug);
         Field "title" title;
         Field "date" date;
         Field "excerpt" (js_or excerpt (JStr ""));
         Field "tags" (js_or tags (JArr []));
         Field "readingTime" (JStr (text readingTimeResult));
         Field "content" (JStr content);
         Spread data ])))
    (fun error => Return None).

End Blog.

(** ** Vocabulary of the statements *)

Section Vocabulary.
Context `{Runtime}.

(** The recognized content extension. *)
Definition is_mdx (file : string) : bool := endsWith file ".mdx".

(** The file [getBlogPosts] reads for a directory entry, and the file
    [getBlogPost] reads for a slug. *)
Definition entryPath (file : string) : string :=
  path.join [contentDirectory; file].
Definition slugPath (slug : string) : string :=
  path.join [contentDirectory; slug +:+ ".mdx"].

(** Parsing one file into a post: the statements [getBlogPosts] and
    [getBlogPost] share, from the call of [matter] to the object
    literal. *)
Definition parsePost (slug fileContents : string) : completion BlogPost :=
  parsed ← matter fileContents;
  title ← get (data parsed) "title";
  date ← get (data parsed) "date";
  excerpt ← get (data parsed) "excerpt";
  tags ← get (data parsed) "tags";
  Return (object_literal
    [ Field "slug" (JStr slug);
      Field "title" title;
      Field "date" date;
      Field "excerpt" (js_or excerpt (JStr ""));
      Field "tags" (js_or tags (JArr []));
      Field "readingTime" (JStr (text (readingTime (content parsed))));
      Field "content" (JStr (content parsed));
      Spread (data parsed) ]).

(** The properties the object literal defines before it spreads the
    front matter. *)
Definition derived_fields (slug : string) (parsed : GrayMatterFile) : JsObject :=
  object_literal
    [ Field "slug" (JStr slug);
      Field "title" (prop (own_properties (data parsed)) "title");
      Field "date" (prop (own_properties (data parsed)) "date");
      Field "excerpt" (js_or (prop (own_properties (data parsed)) "excerpt") (JStr ""));
      Field "tags" (js_or (prop (own_properties (data parsed)) "tags") (JArr []));
      Field "readingTime" (JStr (text (readingTime (content parsed))));
      Field "content" (JStr (content parsed)) ].

(** The values whose properties cannot be read. *)
Definition nullish (v : JsValue) : bool :=
  match v with
  | JUndefined | JNull => true
  | _ => false
  end.

(** The time value the comparator reads off a post, [0] standing in
    where there is none. *)
Definition time_of (p : BlogPost) : Z :=
  match Date_getTime (prop p "date") with
  | Return (Some t) => t
  | _ => 0
  end.

(** Reading and parsing the file at [filePath]. *)
Definition loadPost (disk : FileSystem) (filePath slug : string)
  : completion BlogPost :=
  fileContents ← fs.readFileSync disk filePath;
  parsePost slug fileContents.

(** The post [getBlogPosts] builds for a directory entry. *)
Definition loadEntry (disk : FileSystem) (file : string) : completion BlogPost :=
  loadPost disk (entryPath file) (replace_mdx_end file).

(** The file at [filePath] reads, and [matter] splits it into the front
    matter [header] and the body [body]. *)
Definition front_matter (disk : FileSystem) (filePath : string)
    (header : JsValue) (body : string) : Prop :=
  exists fileContents,
    fs.readFileSync disk filePath = Return fileContents /\
    matter fileContents = Return {| data := header; content := body |}.

(** The front matter has a value under [key]. *)
Definition has_key (header : JsValue) (key : string) : Prop :=
  is_Some (own_properties header !! key).

(** The comparator of [getBlogPosts]. *)
Definition byDateDescending (a b : BlogPost) : completion (option Z) :=
  tb ← Date_getTime (prop b "date");
  ta ← Date_getTime (prop a "date");
  Return (number_sub tb ta).

(** [new Date(A.date).getTime() >= new Date(B.date).getTime()]; a
    comparison with NaN is false. *)
Definition date_ge (a b : BlogPost) : bool :=
  match Date_getTime (prop a "date"), Date_getTime (prop b "date") with
  | Return (Some ta), Return (Some tb) => tb <=? ta
  | _, _ => false
  end.

(** The date of the post is a valid date. *)
Definition valid_date (p : BlogPost) : Prop :=
  exists t, Date_getTime (prop p "date") = Return (Some t).

(** Every adjacent pair of the list is ordered by [date_ge]. *)
Definition newest_first (posts : list BlogPost) : Prop :=
  forall (i : nat) (a b : BlogPost),
    posts !! i = Some a -> posts !! S i = Some b -> date_ge a b = true.

(** A property of every post the loader returns, in terms of the file
    the post was built from: [P header body file post] for the front
    matter and the body of the file and for its name, which is
    [slug + ".mdx"] in [getBlogPost] and the directory entry in
    [getBlogPosts].  The list of [getBlogPosts] holds the posts of the
    entries with the extension, one each, in some order. *)
Definition each_post (disk : FileSystem)
    (P : JsValue -> string -> string -> BlogPost -> Prop) : Prop :=
  (forall slug post,
     getBlogPost disk slug = Return (Some post) ->
     exists header body,
       front_matter disk (slugPath slug) header body /\
       P header body (slug +:+ ".mdx") post) /\
  (forall files posts,
     fs.readdirSync disk contentDirectory = Return files ->
     getBlogPosts disk = Return posts ->
     exists perFile,
       perFile ≡ₚ posts /\
       Forall2
         (fun file post =>
            exists header body,
              front_matter disk (entryPath file) header body /\
              P header body file post)
         (filter is_mdx files) perFile).

(** A stack of segments as [normalizeString] builds them: each segment
    was kept when it was met on top of the segments below it. *)
Fixpoint settled (allowAboveRoot : bool) (stack : list string) : Prop :=
  match stack with
  | [] => True
  | segment :: below =>
      path.normalize_step allowAboveRoot below segment = segment :: below /\
      settled allowAboveRoot below
  end.

(** A segment holds no separator. *)
Definition plain (segment : string) : Prop := path.split segment = [segment].

(** [p] names something inside the directory [dir]. *)
Definition inside (dir p : string) : bool := String.prefix (dir +:+ "/") p.

End Vocabulary.

(** ** A concrete runtime and a few disks *)

Module Demo.

Definition hello_mdx : string :=
"---
title: 'Hello'
date: '2025-01-01'
---
Hello world".

Definition june_mdx : string :=
"---
title: 'June'
date: '2025-06-01'
excerpt: 'Half way'
tags: ['news', 'summer']
---
The June post".

Definition undated_mdx : string :=
"---
title: 'Draft'
---
Coming soon".

Definition renamed_mdx : string :=
"---
title: 'Renamed'
date: '2025-01-01'
slug: 'custom'
excerpt: null
---
Another post".

Definition broken_mdx : string :=
"---
title: 'no closing quote
---
Body".

Definition str_obj (fields : list (string * JsValue)) : JsValue :=
  JObj (list_to_map fields).

(** [gray-matter] on the files above; a text without front matter comes
    back whole, with empty data. *)
Definition gray_matter (input : string) : completion GrayMatterFile :=
  if String.eqb input hello_mdx then
    Return {| data := str_obj [("title", JStr "Hello"); ("date", JStr "2025-01-01")];
              content := "Hello world" |}
  else if String.eqb input june_mdx then
    Return {| data := str_obj [("title", JStr "June"); ("date", JStr "2025-06-01");
                               ("excerpt", JStr "Half way");
                               ("tags", JArr [JStr "news"; JStr "summer"])];
              content := "The June post" |}
  else if String.eqb input undated_mdx then
    Return {| data := str_obj [("title", JStr "Draft")];
              content := "Coming soon" |}
  else if String.eqb input renamed_mdx then
    Return {| data := str_obj [("title", JStr "Renamed"); ("date", JStr "2025-01-01");
                               ("slug", JStr "custom"); ("excerpt", JNull)];
              content := "Another post" |}
  else if String.eqb input broken_mdx then
    Throw (LibraryError "YAMLException: unexpected end of the stream within a single quoted scalar")
  else Return {| data := JObj ∅; content := input |}.

(** [reading-time] on a body of one to two hundred words. *)
Definition reading_time (body : string) : ReadTimeResults :=
  {| text := "1 min read"; words := Z.of_nat (length (String.words body)) |}.

(** [Date.parse] on the dates of the files above (UTC midnight). *)
Definition parse_date (s : string) : option Z :=
  if String.eqb s "2025-01-01" then Some 1735689600000
  else if String.eqb s "2025-06-01" then Some 1748736000000
  else None.

(** The dates of the files above are strings: ToPrimitive is not reached
    on them.  A mapping without a [toString] key prints as below. *)
Definition to_primitive (v : JsValue) : completion string :=
  match v with
  | JObj m =>
      if bool_decide (is_Some (m !! "toString"))
      then Throw (TypeError "Cannot convert object to primitive value")
      else Return "[object Object]"
  | _ => Return ""
  end.

#[local] Instance runtime : Runtime :=
  {| cwd := "/app";
     matter := gray_matter;
     readingTime := reading_time;
     Date_parse := parse_date;
     ToPrimitive := to_primitive |}.

Definition blog : string := "/app/src/content/blog".

(** The files in and next to the content directory. *)
Definition files : FileSystem :=
  list_to_map
    [ ("/app/src/content", Directory ["blog"; "x.mdx"]);
      ("/app/src/content/blog/hello.mdx", File hello_mdx);
      ("/app/src/content/blog/june.mdx", File june_mdx);
      ("/app/src/content/blog/undated.mdx", File undated_mdx);
      ("/app/src/content/blog/renamed.mdx", File renamed_mdx);
      ("/app/src/content/blog/broken.mdx", File broken_mdx);
      ("/app/src/content/blog/notes.txt", File "to do");
      ("/app/src/content/x.mdx", File june_mdx) ].

(** A disk on which the content directory lists [entries]. *)
Definition disk (entries : list string) : FileSystem :=
  <[blog := Directory entries]> files.

Definition hello_post : BlogPost :=
  list_to_map
    [ ("slug", JStr "hello"); ("title", JStr "Hello");
      ("date", JStr "2025-01-01"); ("excerpt", JStr ""); ("tags", JArr []);
      ("readingTime", JStr "1 min read"); ("content", JStr "Hello world") ].

Definition june_post (slug : string) : BlogPost :=
  list_to_map
    [ ("slug", JStr slug); ("title", JStr "June");
      ("date", JStr "2025-06-01"); ("excerpt", JStr "Half way");
      ("tags", JArr [JStr "news"; JStr "summer"]);
      ("readingTime", JStr "1 min read"); ("content", JStr "The June post") ].

Definition undated_post : BlogPost :=
  list_to_map
    [ ("slug", JStr "undated"); ("title", JStr "Draft");
      ("date", JUndefined); ("excerpt", JStr ""); ("tags", JArr []);
      ("readingTime", JStr "1 min read"); ("content", JStr "Coming soon") ].

Definition renamed_post : BlogPost :=
  list_to_map
    [ ("slug", JStr "custom"); ("title", JStr "Renamed");
      ("date", JStr "2025-01-01"); ("excerpt", JNull); ("tags", JArr []);
      ("readingTime", JStr "1 min read"); ("content", JStr "Another post") ].

End Demo.

(** ** The first version of [blog.ts]

    The file is written twice; the first text has no check that the
    content directory exists and no [tags] field. *)

Module V1.
Section Blog.
Context `{Runtime}.

Definition getBlogPosts (disk : FileSystem) : completion (list BlogPost) :=
  files ← fs.readdirSync disk contentDirectory;
  posts ←
    Array_map
      (fun file =>
         let filePath := path.join [contentDirectory; file] in
         fileContents ← fs.readFileSync disk filePath;
         parsed ← matter fileContents;
         let '{| data := data; content := content |} := parsed in
         let slug := replace_mdx_end file in
         let readingTimeResult := readingTime content in
         title ← get data "title";
         date ← get data "date";
         excerpt ← get data "excerpt";
         Return (object_literal
           [ Field "slug" (JStr slug);
             Field "title" title;
             Field "date" date;
             Field "excerpt" (js_or excerpt (JStr ""));
             Field "readingTime" (JStr (text readingTimeResult));
             Field "content" (JStr content);
             Spread data ]))
      (filter (fun file => endsWith file ".mdx") files);
  Array_sort
    (fun a b =>
       tb ← Date_getTime (prop b "date");
       ta ← Date_getTime (prop a "date");
       Return (number_sub tb ta))
    posts.

Definition getBlogPost (disk : FileSystem) (slug : string)
  : completion (option BlogPost) :=
  try_catch
    (let filePath := path.join [contentDirectory; slug +:+ ".mdx"] in
     fileContents ← fs.readFileSync disk filePath;
     parsed ← matter fileContents;
     let '{| data := data; content := content |} := parsed in
     let readingTimeResult := readingTime content in
     title ← get data "title";
     date ← get data "date";
     excerpt ← get data "excerpt";
     Return (Some (object_literal
       [ Field "slug" (JStr slug);
         Field "title" title;
         Field "date" date;
         Field "excerpt" (js_or excerpt (JStr ""));
         Field "readingTime" (JStr (text readingTimeResult));
         Field "content" (JStr content);
         Spread data ])))
    (fun error => Return None).

End Blog.
End V1.

(** ** More vocabulary *)

(** The value a call returns, mapped; an exception stays. *)
Definition on_result {A B : Type} (f : A -> B) (c : completion A) : completion B :=
  match c with
  | Return a => Return (f a)
  | Throw e => Throw e
  end.

(** What the second version adds to a post of the first: an empty [tags]
    array when the post has no [tags]. *)
Definition with_default_tags (post : BlogPost) : BlogPost :=
  match post !! "tags" with
  | Some _ => post
  | None => <["tags" := JArr []]> post
  end.

(** The keys of the fields the object literal defines itself. *)
Definition derived_keys : gset string :=
  {[ "slug"; "title"; "date"; "excerpt"; "tags"; "readingTime"; "content" ]}.

Section MoreVocabulary.
Context `{Runtime}.

(** The post has no date, or one that is not a date. *)
Definition invalid_date (p : BlogPost) : Prop :=
  Date_getTime (prop p "date") = Return None.

(** The posts dated [t], in the order of the list. *)
Definition dated (t : Z) (posts : list BlogPost) : list BlogPost :=
  filter (fun p => time_of p = t) posts.

(** The posts of the entries with the extension, entry by entry. *)
Definition entry_posts (disk : FileSystem) (files : list string)
    (perFile : list BlogPost) : Prop :=
  Forall2 (fun file post => loadEntry disk file = Return post)
    (filter is_mdx files) perFile.

(** Two disks hold the same thing at the file of every listed entry that
    has the extension. *)
Definition same_entries (disk disk' : FileSystem) (files : list string) : Prop :=
  forall file, file ∈ files -> is_mdx file = true ->
    disk !! entryPath file = disk' !! entryPath file.

(** Parsing one file into a post in the first version, and the post it
    builds for a directory entry. *)
Definition parsePost_v1 (slug fileContents : string) : completion BlogPost :=
  parsed ← matter fileContents;
  title ← get (data parsed) "title";
  date ← get (data parsed) "date";
  excerpt ← get (data parsed) "excerpt";
  Return (object_literal
    [ Field "slug" (JStr slug);
      Field "title" title;
      Field "date" date;
      Field "excerpt" (js_or excerpt (JStr ""));
      Field "readingTime" (JStr (text (readingTime (content parsed))));
      Field "content" (JStr (content parsed));
      Spread (data parsed) ]).

Definition loadEntry_v1 (disk : FileSystem) (file : string) : completion BlogPost :=
  fileContents ← fs.readFileSync disk (entryPath file);
  parsePost_v1 (replace_mdx_end file) fileContents.

End MoreVocabulary.

(** ** More of the concrete disks *)

Module MoreDemo.

(** A file without front matter, in the content directory. *)
Definition plain_disk (entries : list string) : FileSystem :=
  <["/app/src/content/blog/plain.mdx" := File "Just text"]> (Demo.disk entries).

Definition plain_post : BlogPost :=
  list_to_map
    [ ("slug", JStr "plain"); ("title", JUndefined); ("date", JUndefined);
      ("excerpt", JStr ""); ("tags", JArr []);
      ("readingTime", JStr "1 min read"); ("content", JStr "Just text") ].

(** The post of [hello.mdx] in the first version: no [tags]. *)
Definition hello_post_v1 : BlogPost := delete "tags" Demo.hello_post.

End MoreDemo.

(** * Facts about the runtime model *)

(** ** Completions *)

Lemma bind_Return {A B : Type} (c : completion A) (k : A -> completion B) (b : B) :
  c ≫= k = Return b <-> exists a, c = Return a /\ k a = Return b.
Proof.
  destruct c as [a|e]; simpl; split.
  - intros Hk. exists a. split; [reflexivity | exact Hk].
  - intros (a' & Ha & Hk). injection Ha as ->. exact Hk.
  - discriminate.
  - intros (a' & Ha & _). discriminate.
Qed.

Lemma bind_ext {A B : Type} (c : completion A) (k k' : A -> completion B) :
  (forall a, c = Return a -> k a = k' a) -> c ≫= k = c ≫= k'.
Proof. destruct c as [a|e]; simpl; intros Hk; [apply Hk|]; reflexivity. Qed.

Lemma Array_map_ext {A B : Type} (f g : A -> completion B) (xs : list A) :
  (forall x, f x = g x) -> Array_map f xs = Array_map g xs.
Proof.
  intros Hfg. induction xs as [|x xs IH]; simpl; [reflexivity|].
  rewrite Hfg, IH. reflexivity.
Qed.

(** [map] returns exactly when the callback returns on every element, and
    then element by element. *)
Lemma Array_map_Return {A B : Type} (f : A -> completion B) (xs : list A)
    (ys : list B) :
  Array_map f xs = Return ys <-> Forall2 (fun x y => f x = Return y) xs ys.
Proof.
  revert ys. induction xs as [|x xs IH]; intros ys; simpl.
  - split.
    + intros [= <-]. constructor.
    + intros Hys. inversion Hys. reflexivity.
  - split.
    + intros Hm. apply bind_Return in Hm as (y & Hy & Hm).
      apply bind_Return in Hm as (ys' & Hys' & Hm).
      injection Hm as <-. constructor; [exact Hy | apply IH, Hys'].
    + intros Hys. inversion Hys as [|? y ? ys' Hy Hys']; subst.
      rewrite Hy. simpl. apply IH in Hys'. rewrite Hys'. reflexivity.
Qed.

(** [map] throws as soon as the callback throws on one element. *)
Lemma Array_map_Throw {A B : Type} (f : A -> completion B) (xs : list A) (x : A)
    (e : JsError) :
  x ∈ xs -> f x = Throw e ->
  exists (x' : A) (e' : JsError),
    x' ∈ xs /\ f x' = Throw e' /\ Array_map f xs = Throw e'.
Proof.
  intros Hx Hf. induction Hx as [x xs | x y xs Hx IH]; simpl.
  - exists x, e. split; [left | split; [exact Hf | rewrite Hf; reflexivity]].
  - destruct (f y) as [b|e'] eqn:Hy; simpl.
    + destruct (IH Hf) as (x' & e' & Hx' & Hf' & Hm).
      exists x', e'. rewrite Hm.
      split; [right; exact Hx' | split; [exact Hf' | reflexivity]].
    + exists y, e'. split; [left | split; [exact Hy | reflexivity]].
Qed.

(** ** Strings *)

Lemma append_cons (c : ascii) (s t : string) :
  String c s +:+ t = String c (s +:+ t).
Proof. reflexivity. Qed.

Lemma append_assoc (s t u : string) : (s +:+ t) +:+ u = s +:+ (t +:+ u).
Proof.
  induction s as [|c s IH]; [reflexivity|].
  rewrite !append_cons, IH. reflexivity.
Qed.

Lemma length_append (s t : string) :
  String.length (s +:+ t) = (String.length s + String.length t)%nat.
Proof.
  induction s as [|c s IH]; [reflexivity|].
  rewrite append_cons. simpl. rewrite IH. reflexivity.
Qed.

Lemma append_inj_l (s s' t : string) : s +:+ t = s' +:+ t -> s = s'.
Proof.
  revert s'. induction s as [|c s IH]; intros [|c' s'] Heq.
  - reflexivity.
  - apply (f_equal String.length) in Heq. rewrite !length_append in Heq.
    simpl in Heq. lia.
  - apply (f_equal String.length) in Heq. rewrite !length_append in Heq.
    simpl in Heq. lia.
  - rewrite !append_cons in Heq. injection Heq as -> Heq.
    f_equal. apply IH, Heq.
Qed.

Lemma substring_all (s : string) : substring 0 (String.length s) s = s.
Proof. induction s as [|c s IH]; simpl; [reflexivity | rewrite IH; reflexivity]. Qed.

(** A string is its first [n] characters followed by the rest. *)
Lemma substring_cut (s : string) (n : nat) :
  (n <= String.length s)%nat ->
  substring 0 n s +:+ substring n (String.length s - n) s = s.
Proof.
  revert n. induction s as [|c s IH]; intros [|n] Hn; simpl in *.
  - reflexivity.
  - lia.
  - rewrite substring_all. reflexivity.
  - rewrite append_cons, IH by lia. reflexivity.
Qed.

Lemma substring_append_r (s t : string) :
  substring (String.length s) (String.length t) (s +:+ t) = t.
Proof.
  induction s as [|c s IH].
  - apply substring_all.
  - rewrite append_cons. simpl. exact IH.
Qed.

(** [endsWith] holds exactly of the strings that are something followed
    by the suffix. *)
Lemma endsWith_cut (s suffix : string) :
  endsWith s suffix = true ->
  substring 0 (String.length s - String.length suffix) s +:+ suffix = s.
Proof.
  unfold endsWith. destruct (Nat.leb_spec (String.length suffix) (String.length s))
    as [Hle|]; [|discriminate].
  intros Heq%String.eqb_eq.
  pose proof (substring_cut s (String.length s - String.length suffix)) as Hcut.
  replace (String.length s - (String.length s - String.length suffix))%nat
    with (String.length suffix) in Hcut by lia.
  rewrite Heq in Hcut. apply Hcut. lia.
Qed.

Lemma endsWith_append (s suffix : string) : endsWith (s +:+ suffix) suffix = true.
Proof.
  unfold endsWith. rewrite length_append.
  destruct (Nat.leb_spec (String.length suffix) (String.length s + String.length suffix))
    as [_|]; [|lia].
  replace (String.length s + String.length suffix - String.length suffix)%nat
    with (String.length s) by lia.
  rewrite substring_append_r. apply String.eqb_refl.
Qed.

(** The slug of a directory entry is the name without its extension. *)
Lemma replace_mdx_end_cut (file : string) :
  endsWith file ".mdx" = true -> replace_mdx_end file +:+ ".mdx" = file.
Proof.
  intros Hext. unfold replace_mdx_end. rewrite Hext.
  apply (endsWith_cut file ".mdx" Hext).
Qed.

Lemma replace_mdx_end_append (slug : string) :
  replace_mdx_end (slug +:+ ".mdx") = slug.
Proof.
  apply (append_inj_l _ _ ".mdx"), replace_mdx_end_cut, endsWith_append.
Qed.

(** ** [sort] *)

Lemma sort_insert_Permutation {A : Type} (comparefn : A -> A -> completion (option Z))
    (x : A) (sorted result : list A) :
  sort_insert comparefn x sorted = Return result -> x :: sorted ≡ₚ result.
Proof.
  revert result. induction sorted as [|y rest IH]; intros result; simpl.
  - intros [= <-]. reflexivity.
  - intros Hins. apply bind_Return in Hins as (v & _ & Hins).
    destruct (comes_after v).
    + apply bind_Return in Hins as (r & Hr & [= <-]).
      rewrite <- (IH r Hr). apply Permutation_swap.
    + injection Hins as <-. reflexivity.
Qed.

(** Whatever the comparator, a [sort] that returns has rearranged the
    elements. *)
Lemma Array_sort_Permutation {A : Type} (comparefn : A -> A -> completion (option Z))
    (xs result : list A) :
  Array_sort comparefn xs = Return result -> xs ≡ₚ result.
Proof.
  revert result. induction xs as [|x xs IH]; intros result; simpl.
  - intros [= <-]. reflexivity.
  - intros Hs. apply bind_Return in Hs as (s & Hs & Hins).
    rewrite (IH s Hs). apply (sort_insert_Permutation _ _ _ _ Hins).
Qed.

Lemma sort_insert_total {A : Type} (comparefn : A -> A -> completion (option Z))
    (x : A) (sorted : list A) :
  (forall y, y ∈ sorted -> exists v, comparefn x y = Return v) ->
  exists result, sort_insert comparefn x sorted = Return result.
Proof.
  induction sorted as [|y rest IH]; intros Hcmp; simpl.
  - exists [x]. reflexivity.
  - destruct (Hcmp y) as [v ->]; [left|]. simpl.
    destruct (comes_after v); [|eexists; reflexivity].
    destruct IH as [r ->]; [|eexists; reflexivity].
    intros y' Hy'. apply Hcmp. right. exact Hy'.
Qed.

(** A [sort] whose comparator returns on every pair returns. *)
Lemma Array_sort_total {A : Type} (comparefn : A -> A -> completion (option Z))
    (xs : list A) :
  (forall a b, a ∈ xs -> b ∈ xs -> exists v, comparefn a b = Return v) ->
  exists result, Array_sort comparefn xs = Return result.
Proof.
  induction xs as [|x xs IH]; intros Hcmp; simpl.
  - exists []. reflexivity.
  - destruct IH as [s Hs].
    { intros a b Ha Hb. apply Hcmp; right; assumption. }
    rewrite Hs. simpl. apply sort_insert_total.
    intros y Hy. apply Hcmp; [left|right].
    rewrite (Array_sort_Permutation _ _ _ Hs). exact Hy.
Qed.

(** With a comparator that is the difference of two keys, [sort] returns
    and the result is in descending key order. *)
Section KeyedSort.
Context {A : Type} (comparefn : A -> A -> completion (option Z)) (key : A -> Z).

Local Abbreviation R := (fun a b : A => key b <= key a).

Lemma sort_insert_keyed (x : A) (sorted : list A) :
  (forall y, y ∈ sorted -> comparefn x y = Return (Some (key y - key x))) ->
  Sorted R sorted ->
  exists result,
    sort_insert comparefn x sorted = Return result /\
    Sorted R result /\
    (forall z, HdRel R z sorted -> R z x -> HdRel R z result).
Proof.
  induction sorted as [|y rest IH]; intros Hcmp Hsorted; simpl.
  - exists [x]. split; [reflexivity|]. split.
    + repeat constructor.
    + intros z _ Hzx. constructor. exact Hzx.
  - rewrite (Hcmp y) by left. simpl.
    apply Sorted_inv in Hsorted as [Hrest Hhd].
    destruct (Z.ltb_spec 0 (key y - key x)) as [Hlt|Hge].
    + destruct IH as (r & Hr & Hsr & Hhdr); [|exact Hrest|].
      { intros y' Hy'. apply Hcmp. right. exact Hy'. }
      exists (y :: r). rewrite Hr. simpl. split; [reflexivity|]. split.
      * constructor; [exact Hsr|]. apply Hhdr; [exact Hhd|]. simpl. lia.
      * intros z Hz _. apply HdRel_inv in Hz. constructor. exact Hz.
    + exists (x :: y :: rest). split; [reflexivity|]. split.
      * constructor; [constructor; assumption|]. constructor. lia.
      * intros z _ Hzx. constructor. exact Hzx.
Qed.

Lemma Array_sort_keyed (xs : list A) :
  (forall a b, a ∈ xs -> b ∈ xs -> comparefn a b = Return (Some (key b - key a))) ->
  exists result,
    Array_sort comparefn xs = Return result /\ Sorted R result /\ xs ≡ₚ result.
Proof.
  induction xs as [|x xs IH]; intros Hcmp; simpl.
  - exists []. repeat split; constructor.
  - destruct IH as (s & Hs & Hsorted & Hperm).
    { intros a b Ha Hb. apply Hcmp; right; assumption. }
    destruct (sort_insert_keyed x s) as (r & Hr & Hsr & _); [|exact Hsorted|].
    { intros y Hy. apply Hcmp; [left|right]. rewrite Hperm. exact Hy. }
    exists r. rewrite Hs. simpl. split; [exact Hr|]. split; [exact Hsr|].
    rewrite Hperm. apply (sort_insert_Permutation _ _ _ _ Hr).
Qed.

End KeyedSort.

Lemma Sorted_adjacent {A : Type} (R : A -> A -> Prop) (xs : list A) (i : nat) (a b : A) :
  Sorted R xs -> xs !! i = Some a -> xs !! S i = Some b -> R a b.
Proof.
  intros Hsorted. revert i. induction Hsorted as [|x xs Hxs IH Hhd]; intros i Ha Hb.
  - discriminate.
  - destruct i as [|i]; simpl in *.
    + injection Ha as ->. destruct Hhd as [|y ys Hxy]; [discriminate|].
      simpl in Hb. injection Hb as ->. exact Hxy.
    + apply (IH i); assumption.
Qed.

(** * Facts about [path.join] *)

Lemma split_nonempty (s : string) : path.split s <> [].
Proof.
  destruct s as [|c s]; simpl; [discriminate|].
  destruct (Ascii.eqb c "/"); [discriminate|].
  destruct (path.split s); discriminate.
Qed.

Lemma split_cons_plain (c : ascii) (s : string) :
  Ascii.eqb c "/" = false ->
  path.split (String c s) =
    match path.split s with
    | [] => [String c EmptyString]
    | segment :: segments => String c segment :: segments
    end.
Proof. intros Hc. simpl. rewrite Hc. reflexivity. Qed.

(** Splitting distributes over a separator. *)
Lemma split_app (a b : string) :
  path.split (a +:+ String "/" b) = path.split a ++ path.split b.
Proof.
  induction a as [|c a IH].
  - reflexivity.
  - rewrite append_cons. destruct (Ascii.eqb c "/") eqn:Hc.
    + simpl. rewrite Hc, IH. reflexivity.
    + rewrite !split_cons_plain by exact Hc. rewrite IH.
      destruct (path.split a) as [|segment segments] eqn:Ha.
      * destruct (split_nonempty a Ha).
      * reflexivity.
Qed.

(** The segments of a split hold no separator. *)
Lemma split_plain (s : string) : Forall plain (path.split s).
Proof.
  induction s as [|c s IH].
  - repeat constructor.
  - destruct (Ascii.eqb c "/") eqn:Hc.
    + simpl. rewrite Hc. constructor; [reflexivity | exact IH].
    + rewrite split_cons_plain by exact Hc.
      destruct (path.split s) as [|segment segments] eqn:Hs.
      * destruct (split_nonempty s Hs).
      * apply Forall_cons in IH as [Hsegment Hsegments].
        constructor; [|exact Hsegments].
        unfold plain in *. rewrite split_cons_plain by exact Hc.
        rewrite Hsegment. reflexivity.
Qed.

Lemma concat_cons (a b : string) (segments : list string) :
  String.concat "/" (a :: b :: segments)
    = a +:+ String "/" (String.concat "/" (b :: segments)).
Proof. reflexivity. Qed.

(** Joining plain segments and splitting again gives the segments. *)
Lemma split_concat (segments : list string) :
  segments <> [] -> Forall plain segments ->
  path.split (String.concat "/" segments) = segments.
Proof.
  induction segments as [|a [|b segments] IH]; intros Hne Hplain.
  - contradiction.
  - apply Forall_cons in Hplain as [Ha _]. exact Ha.
  - apply Forall_cons in Hplain as [Ha Hrest].
    rewrite concat_cons, split_app, Ha, IH; [reflexivity | discriminate | exact Hrest].
Qed.

Lemma concat_snoc (segments : list string) (a : string) :
  segments <> [] ->
  String.concat "/" (segments ++ [a]) = String.concat "/" segments +:+ String "/" a.
Proof.
  induction segments as [|b [|c segments] IH]; intros Hne.
  - contradiction.
  - reflexivity.
  - change ((b :: c :: segments) ++ [a]) with (b :: c :: (segments ++ [a])).
    rewrite !concat_cons. change (c :: segments ++ [a]) with ((c :: segments) ++ [a]).
    rewrite IH by discriminate. rewrite append_assoc. reflexivity.
Qed.

Lemma cons_neq_self {A : Type} (x : A) (xs : list A) : xs <> x :: xs.
Proof.
  intros Heq. apply (f_equal length) in Heq. simpl in Heq. lia.
Qed.

(** Every step of [normalizeString] leaves a settled stack settled. *)
Lemma normalize_step_settled (allowAboveRoot : bool) (stack : list string)
    (segment : string) :
  settled allowAboveRoot stack ->
  settled allowAboveRoot (path.normalize_step allowAboveRoot stack segment).
Proof.
  intros Hstack.
  destruct (path.normalize_step allowAboveRoot stack segment) as [|top rest] eqn:Hstep;
    [exact I|].
  revert Hstep. unfold path.normalize_step.
  destruct (String.eqb segment "" || String.eqb segment ".") eqn:Hskip.
  { intros <-. exact Hstack. }
  destruct (String.eqb segment "..") eqn:Hup.
  - apply String.eqb_eq in Hup as ->.
    destruct stack as [|last below].
    + destruct allowAboveRoot; [|discriminate]. intros [= <- <-].
      split; [reflexivity | exact I].
    + destruct (String.eqb last "..") eqn:Hlast.
      * destruct allowAboveRoot.
        -- intros [= <- <-]. split; [|exact Hstack].
           unfold path.normalize_step. rewrite Hskip, String.eqb_refl, Hlast.
           reflexivity.
        -- intros [= <- <-]. exact Hstack.
      * intros Hbelow. destruct Hstack as [_ Hstack]. rewrite <- Hbelow. exact Hstack.
  - intros [= <- <-]. split; [|exact Hstack].
    unfold path.normalize_step. rewrite Hskip, Hup. reflexivity.
Qed.

Lemma fold_normalize_step_settled (allowAboveRoot : bool) (segments stack : list string) :
  settled allowAboveRoot stack ->
  settled allowAboveRoot (fold_left (path.normalize_step allowAboveRoot) segments stack).
Proof.
  revert stack. induction segments as [|segment segments IH]; intros stack Hstack.
  - exact Hstack.
  - simpl. apply IH, normalize_step_settled, Hstack.
Qed.

(** Normalizing the segments of a settled stack gives the stack back. *)
Lemma fold_normalize_step_rev (allowAboveRoot : bool) (stack : list string) :
  settled allowAboveRoot stack ->
  fold_left (path.normalize_step allowAboveRoot) (rev stack) [] = stack.
Proof.
  induction stack as [|segment below IH]; intros Hstack.
  - reflexivity.
  - destruct Hstack as [Hkept Hbelow].
    simpl. rewrite fold_left_app. simpl. rewrite IH by exact Hbelow. exact Hkept.
Qed.

Lemma settled_nonempty (allowAboveRoot : bool) (stack : list string) :
  settled allowAboveRoot stack -> Forall (fun segment => segment <> "") stack.
Proof.
  induction stack as [|segment below IH]; intros Hstack; constructor.
  - destruct Hstack as [Hkept _]. intros ->.
    unfold path.normalize_step in Hkept. simpl in Hkept.
    apply (cons_neq_self _ _ Hkept).
  - apply IH, Hstack.
Qed.

Lemma normalize_step_plain (allowAboveRoot : bool) (stack : list string)
    (segment : string) :
  Forall plain stack -> plain segment ->
  Forall plain (path.normalize_step allowAboveRoot stack segment).
Proof.
  intros Hstack Hsegment. unfold path.normalize_step.
  destruct (String.eqb segment "" || String.eqb segment "."); [exact Hstack|].
  destruct (String.eqb segment "..") eqn:Hup.
  - destruct stack as [|last below].
    + destruct allowAboveRoot; repeat constructor.
    + destruct (String.eqb last "..").
      * destruct allowAboveRoot; [|exact Hstack].
        constructor; [reflexivity | exact Hstack].
      * apply Forall_cons in Hstack as [_ Hbelow]. exact Hbelow.
  - constructor; assumption.
Qed.

Lemma fold_normalize_step_plain (allowAboveRoot : bool) (segments stack : list string) :
  Forall plain stack -> Forall plain segments ->
  Forall plain (fold_left (path.normalize_step allowAboveRoot) segments stack).
Proof.
  revert stack. induction segments as [|segment segments IH]; intros stack Hstack Hsegments.
  - exact Hstack.
  - apply Forall_cons in Hsegments as [Hsegment Hsegments].
    simpl. apply IH; [apply normalize_step_plain|]; assumption.
Qed.

Lemma prefix_app (u v w : string) :
  String.prefix (u +:+ v) (u +:+ w) = String.prefix v w.
Proof.
  induction u as [|c u IH]; [reflexivity|].
  rewrite !append_cons. simpl. destruct (ascii_dec c c); [exact IH | contradiction].
Qed.

Lemma substring_append_skip (u v : string) (k m : nat) :
  substring (String.length u + k) m (u +:+ v) = substring k m v.
Proof.
  induction u as [|c u IH]; [reflexivity|].
  rewrite append_cons. simpl. exact IH.
Qed.

(** Whether a string ends with a suffix is decided by any tail of it that
    is at least as long as the suffix. *)
Lemma endsWith_append_tail (u v suffix : string) :
  (String.length suffix <= String.length v)%nat ->
  endsWith (u +:+ v) suffix = endsWith v suffix.
Proof.
  intros Hlen. unfold endsWith. rewrite length_append.
  destruct (Nat.leb_spec (String.length suffix) (String.length v)) as [_|]; [|lia].
  destruct (Nat.leb_spec (String.length suffix) (String.length u + String.length v))
    as [_|]; [|lia].
  replace (String.length u + String.length v - String.length suffix)%nat
    with (String.length u + (String.length v - String.length suffix))%nat by lia.
  rewrite substring_append_skip. reflexivity.
Qed.

Lemma eqb_append_nonempty (u : string) (c : ascii) (v : string) :
  String.eqb (u +:+ String c v) "" = false.
Proof. destruct u; reflexivity. Qed.

Lemma plain_head (segment : string) :
  plain segment -> segment <> "" ->
  exists c rest, segment = String c rest /\ Ascii.eqb c "/" = false.
Proof.
  destruct segment as [|c rest]; intros Hplain Hne; [contradiction|].
  exists c, rest. split; [reflexivity|].
  destruct (Ascii.eqb c "/") eqn:Hc; [|reflexivity].
  unfold plain in Hplain. simpl in Hplain. rewrite Hc in Hplain.
  injection Hplain as Habsurd _. discriminate.
Qed.

Lemma prefix_slash_cons (c : ascii) (s : string) :
  String.prefix "/" (String c s) = if ascii_dec "/" c then true else false.
Proof.
  change (String.prefix "/" (String c s))
    with (if ascii_dec "/" c then String.prefix "" s else false).
  destruct (ascii_dec "/" c); [destruct s|]; reflexivity.
Qed.

(** [normalize] on a path that is not empty and has no trailing separator,
    given the stack its segments leave. *)
Lemma normalize_stack (p : string) (absolute : bool) (stack : list string) :
  String.eqb p "" = false ->
  String.prefix "/" p = absolute ->
  endsWith p "/" = false ->
  fold_left (path.normalize_step (negb absolute)) (path.split p) [] = stack ->
  String.eqb (String.concat "/" (rev stack)) "" = false ->
  path.normalize p
    = (if absolute then "/" else "") +:+ String.concat "/" (rev stack).
Proof.
  intros Hp Habs Htrail Hstack Hne. unfold path.normalize, path.normalizeString.
  rewrite Hp, Habs, Htrail, Hstack, Hne. destruct absolute; reflexivity.
Qed.

(** The content directory, for a working directory that is not the empty
    string: the segments of the working directory, then [src/content/blog]. *)
Lemma join_cwd_blog (c : ascii) (rest : string) :
  let cwd := String c rest in
  let absolute := String.prefix "/" cwd in
  let stack := fold_left (path.normalize_step (negb absolute)) (path.split cwd) [] in
  path.join [cwd; "src/content/blog"]
    = (if absolute then "/" else "")
        +:+ (String.concat "/" (rev stack ++ ["src"; "content"]) +:+ "/blog").
Proof.
  intros cwd absolute stack.
  change (path.join [cwd; "src/content/blog"])
    with (path.normalize (cwd +:+ String "/" "src/content/blog")).
  rewrite (normalize_stack _ absolute ("blog" :: "content" :: "src" :: stack)).
  - simpl rev. rewrite <- !app_assoc. simpl app.
    change (rev stack ++ ["src"; "content"; "blog"])
      with (rev stack ++ ["src"; "content"] ++ ["blog"]).
    rewrite app_assoc, concat_snoc; [reflexivity|].
    destruct (rev stack); discriminate.
  - reflexivity.
  - unfold absolute, cwd. rewrite append_cons, !prefix_slash_cons. reflexivity.
  - rewrite endsWith_append_tail by (simpl; lia). reflexivity.
  - rewrite split_app, fold_left_app. reflexivity.
  - simpl rev. rewrite concat_snoc by (destruct (rev stack ++ ["src"]); discriminate).
    apply eqb_append_nonempty.
Qed.

Lemma join_two (a b : string) :
  String.eqb a "" = false -> String.eqb b "" = false ->
  path.join [a; b] = path.normalize (a +:+ String "/" b).
Proof.
  intros Ha Hb. unfold path.join.
  rewrite filter_cons_True by (rewrite Ha; exact I).
  rewrite filter_cons_True by (rewrite Hb; exact I).
  reflexivity.
Qed.

(** A relative path that starts with a plain segment does not start with
    a separator. *)
Lemma prefix_slash_concat (segments : list string) (tail : string) :
  segments <> [] ->
  Forall plain segments -> Forall (fun segment => segment <> "") segments ->
  String.prefix "/" (String.concat "/" segments +:+ tail) = false.
Proof.
  destruct segments as [|segment segments]; intros Hne Hplain Hfull; [contradiction|].
  apply Forall_cons in Hplain as [Hplain _]. apply Forall_cons in Hfull as [Hfull _].
  destruct (plain_head segment Hplain Hfull) as (c & rest & -> & Hc).
  destruct segments as [|b segments]; simpl String.concat;
    rewrite ?append_cons, prefix_slash_cons;
    destruct (ascii_dec "/" c) as [<-|]; try reflexivity; discriminate.
Qed.

(** From the content directory, [../x.mdx] is the file [x.mdx] next to it. *)
Lemma join_blog_parent (absolute : bool) (stack : list string) :
  settled (negb absolute) stack -> Forall plain stack ->
  let parent := String.concat "/" (rev stack ++ ["src"; "content"]) in
  let root := if absolute then "/" else "" in
  path.join [root +:+ (parent +:+ "/blog"); "../x.mdx"]
    = root +:+ (parent +:+ "/x.mdx").
Proof.
  intros Hsettled Hplain parent root.
  assert (rev stack ++ ["src"; "content"] <> []) as Hne
    by (destruct (rev stack); discriminate).
  assert (Forall plain (rev stack ++ ["src"; "content"])) as Hplain'.
  { apply Forall_app. split; [apply Forall_rev, Hplain | repeat constructor]. }
  assert (Forall (fun segment => segment <> "") (rev stack ++ ["src"; "content"]))
    as Hfull.
  { apply Forall_app. split; [apply Forall_rev, (settled_nonempty _ _ Hsettled)|].
    repeat constructor; discriminate. }
  assert (path.split (parent +:+ "/blog")
          = (rev stack ++ ["src"; "content"]) ++ ["blog"]) as Hsplit.
  { unfold parent. rewrite <- concat_snoc by exact Hne.
    apply split_concat.
    - destruct (rev stack); discriminate.
    - apply Forall_app. split; [exact Hplain' | repeat constructor]. }
  rewrite join_two;
    [|rewrite <- append_assoc; apply eqb_append_nonempty | reflexivity].
  rewrite (normalize_stack _ absolute ("x.mdx" :: "content" :: "src" :: stack)).
  - simpl rev. rewrite <- !app_assoc. simpl app.
    change (rev stack ++ ["src"; "content"; "x.mdx"])
      with (rev stack ++ ["src"; "content"] ++ ["x.mdx"]).
    rewrite app_assoc, concat_snoc by exact Hne. reflexivity.
  - apply eqb_append_nonempty.
  - unfold root. destruct absolute.
    + rewrite !append_cons. rewrite prefix_slash_cons.
      destruct (ascii_dec "/" "/"); [reflexivity | contradiction].
    + change ("" +:+ (parent +:+ "/blog")) with (parent +:+ "/blog").
      rewrite append_assoc. apply prefix_slash_concat; assumption.
  - rewrite endsWith_append_tail by (simpl; lia). reflexivity.
  - rewrite split_app. unfold root. destruct absolute.
    + change (path.split ("/" +:+ (parent +:+ "/blog")))
        with (EmptyString :: path.split (parent +:+ "/blog")).
      rewrite Hsplit. change (negb true) with false in *.
      simpl fold_left at 1.
      change (path.normalize_step false [] "") with (@nil string).
      rewrite <- !app_assoc, fold_left_app, (fold_normalize_step_rev _ _ Hsettled).
      reflexivity.
    + change (path.split ("" +:+ (parent +:+ "/blog")))
        with (path.split (parent +:+ "/blog")).
      rewrite Hsplit.
      rewrite <- !app_assoc, fold_left_app, (fold_normalize_step_rev _ _ Hsettled).
      reflexivity.
  - simpl rev. rewrite concat_snoc by (destruct (rev stack ++ ["src"]); discriminate).
    apply eqb_append_nonempty.
Qed.

(** * The model on documented behaviour

    [path.join] and [path.normalize] on examples of Node's documentation
    and test suite, TimeClip at its bounds, [sort] with a numeric
    comparator, and the properties a spread copies. *)

Example join_documented :
  path.join ["/foo"; "bar"; "baz/asdf"; "quux"; ".."] = "/foo/bar/baz/asdf".
Proof. reflexivity. Qed.

Example normalize_documented :
  path.normalize "/foo/bar//baz/asdf/quux/.." = "/foo/bar/baz/asdf".
Proof. reflexivity. Qed.

Example normalize_above_root :
  path.normalize "/foo/../../../bar" = "/bar" /\
  path.normalize "../foo../../../bar" = "../../bar" /\
  path.normalize "///..//./foo/.//bar" = "/foo/bar".
Proof. repeat split. Qed.

Example normalize_trailing_separator :
  path.normalize "bar/foo../../" = "bar/" /\
  path.normalize "bar/foo../.." = "bar" /\
  path.normalize "./" = "./".
Proof. repeat split. Qed.

Example join_empty_arguments :
  path.join [] = "." /\ path.join [""; ""] = "." /\ path.join [""; "/foo"] = "/foo".
Proof. repeat split. Qed.

Example TimeClip_bounds :
  TimeClip 8.64e15 = Some 8640000000000000 /\
  TimeClip 8.640000000000002e15 = None /\
  TimeClip (-0.5) = Some 0 /\
  TimeClip nan = None /\
  TimeClip infinity = None.
Proof. repeat split; vm_compute; reflexivity. Qed.

Example sort_descending_stable :
  Array_sort (fun a b : Z * string => Return (Some (b.1 - a.1)))
    [(1, "a"); (3, "b"); (1, "c"); (3, "d")]
  = Return [(3, "b"); (3, "d"); (1, "a"); (1, "c")].
Proof. reflexivity. Qed.

Example spread_of_sequence_and_string :
  own_properties (JArr [JNull; JBool true]) = {[ "0" := JNull; "1" := JBool true ]} /\
  own_properties (JStr "ab") = {[ "0" := JStr "a"; "1" := JStr "b" ]} /\
  own_properties (JBool true) = ∅.
Proof. repeat split; vm_compute; reflexivity. Qed.

(** * Facts about the loader *)

Section LoaderFacts.
Context `{Runtime}.

(** ** The two functions in terms of [loadPost] *)

Lemma getBlogPosts_eq (disk : FileSystem) :
  getBlogPosts disk =
    if negb (fs.existsSync disk contentDirectory) then Return []
    else
      files ← fs.readdirSync disk contentDirectory;
      posts ← Array_map (loadEntry disk) (filter is_mdx files);
      Array_sort byDateDescending posts.
Proof.
  unfold getBlogPosts.
  destruct (negb (fs.existsSync disk contentDirectory)); [reflexivity|].
  apply bind_ext. intros files _.
  rewrite (Array_map_ext _ (loadEntry disk)); [reflexivity|].
  intros file. unfold loadEntry, loadPost, parsePost, entryPath.
  destruct (fs.readFileSync disk (path.join [contentDirectory; file]))
    as [fileContents|e]; simpl; [|reflexivity].
  destruct (matter fileContents) as [[header body]|e]; reflexivity.
Qed.

Lemma getBlogPost_eq (disk : FileSystem) (slug : string) :
  getBlogPost disk slug =
    Return match loadPost disk (slugPath slug) slug with
           | Return post => Some post
           | Throw _ => None
           end.
Proof.
  unfold getBlogPost, loadPost, parsePost, slugPath.
  destruct (fs.readFileSync disk (path.join [contentDirectory; slug +:+ ".mdx"]))
    as [fileContents|e]; simpl; [|reflexivity].
  destruct (matter fileContents) as [[header body]|e]; simpl; [|reflexivity].
  destruct (get header "title") as [title|e]; simpl; [|reflexivity].
  destruct (get header "date") as [date|e]; simpl; [|reflexivity].
  destruct (get header "excerpt") as [excerpt|e]; simpl; [|reflexivity].
  destruct (get header "tags") as [tags|e]; reflexivity.
Qed.

(** ** Parsing one file *)

Lemma get_Return (v : JsValue) (key : string) :
  nullish v = false -> get v key = Return (prop (own_properties v) key).
Proof. destruct v; simpl; intros Hv; try discriminate; reflexivity. Qed.

Lemma get_Throw (v : JsValue) (key : string) :
  nullish v = true -> exists e, get v key = Throw e.
Proof. destruct v; simpl; intros Hv; try discriminate; eexists; reflexivity. Qed.

(** A file parses into a post exactly when [matter] returns and the
    front matter is not null; the post then has the properties of the
    front matter, and the derived fields under the other keys. *)
Lemma parsePost_Return (slug fileContents : string) (post : BlogPost) :
  parsePost slug fileContents = Return post <->
  exists parsed,
    matter fileContents = Return parsed /\
    nullish (data parsed) = false /\
    post = own_properties (data parsed) ∪ derived_fields slug parsed.
Proof.
  unfold parsePost. split.
  - intros Hp. apply bind_Return in Hp as (parsed & Hm & Hp).
    exists parsed. split; [exact Hm|].
    destruct (nullish (data parsed)) eqn:Hnull.
    + destruct (get_Throw _ "title" Hnull) as [e He].
      rewrite He in Hp. discriminate.
    + rewrite !get_Return in Hp by exact Hnull. simpl in Hp.
      injection Hp as <-. split; reflexivity.
  - intros (parsed & Hm & Hnull & ->). rewrite Hm. simpl.
    rewrite !get_Return by exact Hnull. reflexivity.
Qed.

Lemma parsePost_Throw_nullish (slug fileContents : string) (parsed : GrayMatterFile) :
  matter fileContents = Return parsed -> nullish (data parsed) = true ->
  exists e, parsePost slug fileContents = Throw e.
Proof.
  intros Hm Hnull. unfold parsePost. rewrite Hm. simpl.
  destruct (get_Throw (data parsed) "title" Hnull) as [e ->].
  exists e. reflexivity.
Qed.

(** The derived fields, key by key. *)
Lemma derived_fields_lookup (slug : string) (parsed : GrayMatterFile) :
  let header := own_properties (data parsed) in
  let fields := derived_fields slug parsed in
  fields !! "slug" = Some (JStr slug) /\
  fields !! "title" = Some (prop header "title") /\
  fields !! "date" = Some (prop header "date") /\
  fields !! "excerpt" = Some (js_or (prop header "excerpt") (JStr "")) /\
  fields !! "tags" = Some (js_or (prop header "tags") (JArr [])) /\
  fields !! "readingTime" = Some (JStr (text (readingTime (content parsed)))) /\
  fields !! "content" = Some (JStr (content parsed)).
Proof.
  unfold derived_fields, object_literal. simpl.
  repeat split;
    repeat first [ apply lookup_insert_eq | rewrite lookup_insert_ne by done ].
Qed.

End LoaderFacts.

Section ListingFacts.
Context `{Runtime}.

Lemma readdirSync_existsSync (disk : FileSystem) (dir : string) (files : list string) :
  fs.readdirSync disk dir = Return files -> fs.existsSync disk dir = true.
Proof.
  unfold fs.readdirSync, fs.existsSync. intros Hdir.
  apply bool_decide_eq_true. destruct (disk !! dir); [eauto | discriminate].
Qed.

(** What [getBlogPosts] does once the directory is listed. *)
Lemma getBlogPosts_listed (disk : FileSystem) (files : list string) :
  fs.readdirSync disk contentDirectory = Return files ->
  getBlogPosts disk =
    (posts ← Array_map (loadEntry disk) (filter is_mdx files);
     Array_sort byDateDescending posts).
Proof.
  intros Hdir. rewrite getBlogPosts_eq.
  rewrite (readdirSync_existsSync _ _ _ Hdir), Hdir. reflexivity.
Qed.

(** The list returned is a rearrangement of the posts of the entries
    with the extension, one post per entry. *)
Lemma getBlogPosts_per_file (disk : FileSystem) (files : list string)
    (posts : list BlogPost) :
  fs.readdirSync disk contentDirectory = Return files ->
  getBlogPosts disk = Return posts ->
  exists perFile,
    Forall2 (fun file post => loadEntry disk file = Return post)
      (filter is_mdx files) perFile /\
    Array_sort byDateDescending perFile = Return posts /\
    perFile ≡ₚ posts.
Proof.
  intros Hdir Hposts. rewrite (getBlogPosts_listed _ _ Hdir) in Hposts.
  apply bind_Return in Hposts as (perFile & Hmap & Hsort).
  exists perFile. split; [apply Array_map_Return, Hmap|].
  split; [exact Hsort | apply (Array_sort_Permutation _ _ _ Hsort)].
Qed.

Lemma byDateDescending_valid (a b : BlogPost) :
  valid_date a -> valid_date b ->
  byDateDescending a b = Return (Some (time_of b - time_of a)).
Proof.
  intros [ta Ha] [tb Hb]. unfold byDateDescending, time_of.
  rewrite Ha, Hb. reflexivity.
Qed.

Lemma date_ge_valid (a b : BlogPost) :
  valid_date a -> valid_date b -> time_of b <= time_of a -> date_ge a b = true.
Proof.
  intros [ta Ha] [tb Hb]. unfold date_ge, time_of. rewrite Ha, Hb.
  apply Z.leb_le.
Qed.

Lemma loadPost_Return (disk : FileSystem) (filePath slug : string) (post : BlogPost) :
  loadPost disk filePath slug = Return post ->
  exists header body,
    front_matter disk filePath header body /\
    nullish header = false /\
    post = own_properties header
             ∪ derived_fields slug {| data := header; content := body |}.
Proof.
  unfold loadPost. intros Hload.
  apply bind_Return in Hload as (fileContents & Hread & Hparse).
  apply parsePost_Return in Hparse as ([header body] & Hmatter & Hnull & ->).
  exists header, body. split; [exists fileContents; split; assumption|].
  split; [exact Hnull | reflexivity].
Qed.

Lemma Forall2_impl_Forall {A B : Type} (Q Q' : A -> B -> Prop) (R : A -> Prop)
    (xs : list A) (ys : list B) :
  Forall2 Q xs ys -> Forall R xs ->
  (forall x y, R x -> Q x y -> Q' x y) ->
  Forall2 Q' xs ys.
Proof.
  intros HQ HR Himpl. induction HQ as [|x y xs ys Hxy _ IH].
  - constructor.
  - apply Forall_cons in HR as [Hx HR]. constructor; [apply Himpl|apply IH]; assumption.
Qed.

(** To show a property of every post it is enough to show it of the
    object the literal builds from a front matter that is not null. *)
Lemma each_post_intro (disk : FileSystem)
    (P : JsValue -> string -> string -> BlogPost -> Prop) :
  (forall header body slug,
     nullish header = false ->
     P header body (slug +:+ ".mdx")
       (own_properties header
          ∪ derived_fields slug {| data := header; content := body |})) ->
  each_post disk P.
Proof.
  intros HP. split.
  - intros slug post Hget. rewrite getBlogPost_eq in Hget.
    destruct (loadPost disk (slugPath slug) slug) as [post'|e] eqn:Hload;
      [|discriminate].
    injection Hget as ->.
    apply loadPost_Return in Hload as (header & body & Hfm & Hnull & ->).
    exists header, body. split; [exact Hfm | apply HP, Hnull].
  - intros files posts Hdir Hposts.
    destruct (getBlogPosts_per_file _ _ _ Hdir Hposts) as (perFile & Hall & _ & Hperm).
    exists perFile. split; [exact Hperm|].
    apply (Forall2_impl_Forall _ _ (fun file => is_mdx file = true) _ _ Hall).
    + apply Forall_forall. intros file [Hext _]%list_elem_of_filter.
      apply Is_true_true, Hext.
    + intros file post Hext Hload.
      apply loadPost_Return in Hload as (header & body & Hfm & Hnull & ->).
      exists header, body. split; [exact Hfm|].
      rewrite <- (replace_mdx_end_cut file Hext) at 1. apply HP, Hnull.
Qed.

(** The file of the slug [../x] lies next to the content directory, not
    inside it, whatever the working directory. *)
Lemma slugPath_parent_outside : inside contentDirectory (slugPath "../x") = false.
Proof.
  unfold slugPath, contentDirectory.
  change ("../x" +:+ ".mdx") with "../x.mdx".
  destruct cwd as [|c rest]; [vm_compute; reflexivity|].
  rewrite join_cwd_blog. rewrite join_blog_parent.
  - unfold inside. rewrite !append_assoc, !prefix_app. reflexivity.
  - apply fold_normalize_step_settled. exact I.
  - apply fold_normalize_step_plain; [constructor | apply split_plain].
Qed.

End ListingFacts.

(** * The claims *)

(** On a disk of [Demo], a file that reads and that [gray-matter] splits
    is one of the files above: evaluate both calls to find which. *)
Ltac demo_file Hread Hmatter :=
  vm_compute in Hread; injection Hread as <-;
  vm_compute in Hmatter; injection Hmatter as <- <-.

(** C1, as the specification states it, fails: with an entry whose front
    matter has no [date], the list has an adjacent pair that is not in
    date order.  Here the content directory lists [hello.mdx] (dated
    2025-01-01) and [undated.mdx] (no date): the comparator gives NaN on
    the pair, [sort] leaves the two in place, and [A.date >= B.date] is
    false of them, the time value of the second being NaN. *)
Lemma getBlogPosts_undated_unordered :
  @getBlogPosts Demo.runtime (Demo.disk ["hello.mdx"; "undated.mdx"])
    = Return [Demo.hello_post; Demo.undated_post] /\
  @date_ge Demo.runtime Demo.hello_post Demo.undated_post = false /\
  ~ @newest_first Demo.runtime [Demo.hello_post; Demo.undated_post].
Proof.
  split; [vm_compute; reflexivity|]. split; [vm_compute; reflexivity|].
  intros Hordered.
  specialize (Hordered 0%nat Demo.hello_post Demo.undated_post eq_refl eq_refl).
  vm_compute in Hordered. discriminate.
Qed.

(** C1 (amended): for every state of the content directory on which
    [getBlogPosts] returns a list whose posts all have a valid date, the
    list is ordered by date descending: for every adjacent pair (A, B),
    the time of [A.date] is at least the time of [B.date]. *)
Theorem getBlogPosts_newest_first `{Runtime} (disk : FileSystem)
    (posts : list BlogPost) :
  getBlogPosts disk = Return posts ->
  Forall valid_date posts ->
  newest_first posts.
Proof.
  intros Hposts Hvalid. rewrite getBlogPosts_eq in Hposts.
  destruct (negb (fs.existsSync disk contentDirectory)).
  { injection Hposts as <-. intros i a b Ha. discriminate. }
  apply bind_Return in Hposts as (files & _ & Hposts).
  apply bind_Return in Hposts as (perFile & _ & Hsort).
  pose proof (Array_sort_Permutation _ _ _ Hsort) as Hperm.
  rewrite Forall_forall in Hvalid.
  destruct (Array_sort_keyed byDateDescending time_of perFile)
    as (sorted & Hsorted & Hdesc & _).
  { intros a b Ha Hb. apply byDateDescending_valid; apply Hvalid.
    - rewrite <- Hperm. exact Ha.
    - rewrite <- Hperm. exact Hb. }
  rewrite Hsort in Hsorted. injection Hsorted as <-.
  intros i a b Ha Hb. apply date_ge_valid.
  - apply Hvalid. apply (list_elem_of_lookup_2 _ _ _ Ha).
  - apply Hvalid. apply (list_elem_of_lookup_2 _ _ _ Hb).
  - apply (Sorted_adjacent _ _ _ _ _ Hdesc Ha Hb).
Qed.

Lemma getBlogPosts_newest_first_witness :
  @getBlogPosts Demo.runtime (Demo.disk ["hello.mdx"; "notes.txt"; "june.mdx"])
    = Return [Demo.june_post "june"; Demo.hello_post] /\
  @newest_first Demo.runtime [Demo.june_post "june"; Demo.hello_post].
Proof.
  split; [vm_compute; reflexivity|].
  apply (@getBlogPosts_newest_first Demo.runtime
           (Demo.disk ["hello.mdx"; "notes.txt"; "june.mdx"])).
  - vm_compute; reflexivity.
  - repeat constructor; eexists; vm_compute; reflexivity.
Defined.

(** C2: if the content directory does not exist, or exists and is empty,
    [getBlogPosts] returns the empty list; it does not throw. *)
Theorem getBlogPosts_no_directory `{Runtime} (disk : FileSystem) :
  disk !! contentDirectory = None \/
  disk !! contentDirectory = Some (Directory []) ->
  getBlogPosts disk = Return [].
Proof.
  intros [Hmissing | Hempty]; unfold getBlogPosts, fs.existsSync, fs.readdirSync.
  - rewrite Hmissing. rewrite bool_decide_eq_false_2; [reflexivity|].
    intros [node Hnode]. discriminate.
  - rewrite Hempty. rewrite bool_decide_eq_true_2 by eauto. reflexivity.
Qed.

Lemma getBlogPosts_no_directory_witness :
  @getBlogPosts Demo.runtime ∅ = Return [] /\
  @getBlogPosts Demo.runtime (Demo.disk []) = Return [].
Proof.
  split.
  - apply (@getBlogPosts_no_directory Demo.runtime ∅). left. reflexivity.
  - apply (@getBlogPosts_no_directory Demo.runtime (Demo.disk [])). right.
    vm_compute. reflexivity.
Defined.

(** C3, as the specification states it, fails: [getBlogPosts] has no
    [try] around the reading and parsing of an entry.  Here the content
    directory lists [hello.mdx], which parses, and [broken.mdx], whose
    front matter [gray-matter] rejects: the call throws that exception
    instead of returning the post of [hello.mdx]. *)
Lemma getBlogPosts_broken_entry_throws :
  @loadEntry Demo.runtime (Demo.disk ["hello.mdx"; "broken.mdx"]) "hello.mdx"
    = Return Demo.hello_post /\
  @getBlogPosts Demo.runtime (Demo.disk ["hello.mdx"; "broken.mdx"])
    = Throw (LibraryError
        "YAMLException: unexpected end of the stream within a single quoted scalar").
Proof. split; vm_compute; reflexivity. Qed.

(** C3 (amended): for every state of the content directory in which a
    file with the recognized extension fails to read or to parse,
    [getBlogPosts] does not catch the error: the call throws the exception
    of such a file, and returns no list. *)
Theorem getBlogPosts_propagates `{Runtime} (disk : FileSystem)
    (files : list string) (file : string) (e : JsError) :
  fs.readdirSync disk contentDirectory = Return files ->
  file ∈ files ->
  is_mdx file = true ->
  loadEntry disk file = Throw e ->
  exists (file' : string) (e' : JsError),
    file' ∈ files /\ is_mdx file' = true /\
    loadEntry disk file' = Throw e' /\
    getBlogPosts disk = Throw e'.
Proof.
  intros Hdir Hfile Hext Hload.
  destruct (Array_map_Throw (loadEntry disk) (filter is_mdx files) file e)
    as (file' & e' & Hfile' & Hload' & Hmap).
  { apply list_elem_of_filter. split; [rewrite Hext; exact I | exact Hfile]. }
  { exact Hload. }
  apply list_elem_of_filter in Hfile' as [Hext' Hfile'].
  exists file', e'. split; [exact Hfile'|]. split; [apply Is_true_true, Hext'|].
  split; [exact Hload'|].
  rewrite (getBlogPosts_listed _ _ Hdir), Hmap. reflexivity.
Qed.

Lemma getBlogPosts_propagates_witness :
  exists (file' : string) (e' : JsError),
    file' ∈ ["hello.mdx"; "broken.mdx"] /\ is_mdx file' = true /\
    @loadEntry Demo.runtime (Demo.disk ["hello.mdx"; "broken.mdx"]) file' = Throw e' /\
    @getBlogPosts Demo.runtime (Demo.disk ["hello.mdx"; "broken.mdx"]) = Throw e'.
Proof.
  apply (@getBlogPosts_propagates Demo.runtime
           (Demo.disk ["hello.mdx"; "broken.mdx"]) ["hello.mdx"; "broken.mdx"]
           "broken.mdx"
           (LibraryError
              "YAMLException: unexpected end of the stream within a single quoted scalar")).
  - vm_compute. reflexivity.
  - right. left.
  - vm_compute. reflexivity.
  - vm_compute. reflexivity.
Defined.

(** C4: for every slug, [getBlogPost] does not throw.  It returns [null]
    when the file of the slug is missing or cannot be read, and when
    parsing it into a post fails: [gray-matter] throws, or the front
    matter is null, whose fields cannot be read.  Otherwise it returns the
    parsed post: the derived fields, overlaid with the front matter. *)
Theorem getBlogPost_null_or_post `{Runtime} (disk : FileSystem) (slug : string) :
  (exists result, getBlogPost disk slug = Return result) /\
  (forall e, fs.readFileSync disk (slugPath slug) = Throw e ->
     getBlogPost disk slug = Return None) /\
  (forall fileContents e,
     fs.readFileSync disk (slugPath slug) = Return fileContents ->
     matter fileContents = Throw e ->
     getBlogPost disk slug = Return None) /\
  (forall fileContents parsed,
     fs.readFileSync disk (slugPath slug) = Return fileContents ->
     matter fileContents = Return parsed ->
     nullish (data parsed) = true ->
     getBlogPost disk slug = Return None) /\
  (forall fileContents parsed,
     fs.readFileSync disk (slugPath slug) = Return fileContents ->
     matter fileContents = Return parsed ->
     nullish (data parsed) = false ->
     getBlogPost disk slug =
       Return (Some (own_properties (data parsed) ∪ derived_fields slug parsed))).
Proof.
  rewrite getBlogPost_eq. unfold loadPost. repeat split.
  - eexists. reflexivity.
  - intros e ->. reflexivity.
  - intros fileContents e -> Hmatter. simpl. unfold parsePost.
    rewrite Hmatter. reflexivity.
  - intros fileContents parsed -> Hmatter Hnull. simpl.
    destruct (parsePost_Throw_nullish slug _ _ Hmatter Hnull) as [e ->].
    reflexivity.
  - intros fileContents parsed -> Hmatter Hnull. simpl.
    assert (parsePost slug fileContents
            = Return (own_properties (data parsed) ∪ derived_fields slug parsed))
      as ->; [|reflexivity].
    apply parsePost_Return. exists parsed. auto.
Qed.

Lemma getBlogPost_null_or_post_witness :
  @getBlogPost Demo.runtime (Demo.disk ["hello.mdx"]) "missing" = Return None /\
  @getBlogPost Demo.runtime (Demo.disk ["hello.mdx"]) "broken" = Return None /\
  @getBlogPost Demo.runtime (Demo.disk ["hello.mdx"]) "hello"
    = Return (Some Demo.hello_post).
Proof.
  split; [|split].
  - apply (proj1 (proj2 (@getBlogPost_null_or_post Demo.runtime
                           (Demo.disk ["hello.mdx"]) "missing"))
             (SystemError "ENOENT" "/app/src/content/blog/missing.mdx")).
    vm_compute. reflexivity.
  - apply (proj1 (proj2 (proj2 (@getBlogPost_null_or_post Demo.runtime
                                  (Demo.disk ["hello.mdx"]) "broken")))
             Demo.broken_mdx
             (LibraryError
                "YAMLException: unexpected end of the stream within a single quoted scalar")).
    + vm_compute. reflexivity.
    + vm_compute. reflexivity.
  - rewrite (proj2 (proj2 (proj2 (proj2 (@getBlogPost_null_or_post Demo.runtime
                                          (Demo.disk ["hello.mdx"]) "hello"))))
              Demo.hello_mdx
              {| data := Demo.str_obj [("title", JStr "Hello"); ("date", JStr "2025-01-01")];
                 content := "Hello world" |}).
    + vm_compute. reflexivity.
    + vm_compute. reflexivity.
    + vm_compute. reflexivity.
    + reflexivity.
Defined.

(** C5, as the specification states it, fails: the front matter is spread
    after the derived fields, so a [slug] key in it replaces the slug
    derived from the file name (C9).  Here [renamed.mdx] reads and parses,
    its front matter has [slug: 'custom'], and its post has the slug
    [custom], not [renamed], both in the list and when asked for by slug. *)
Lemma getBlogPosts_slug_key_overrides :
  @getBlogPosts Demo.runtime (Demo.disk ["renamed.mdx"]) = Return [Demo.renamed_post] /\
  @getBlogPost Demo.runtime (Demo.disk ["renamed.mdx"]) "renamed"
    = Return (Some Demo.renamed_post) /\
  replace_mdx_end "renamed.mdx" = "renamed" /\
  Demo.renamed_post !! "slug" = Some (JStr "custom").
Proof. repeat split; vm_compute; reflexivity. Qed.

(** C5 (amended): for every content file that reads and parses and whose
    front matter has no [slug] key, the post built from it has a slug equal
    to the file name with its extension removed. *)
Theorem post_slug_is_file_stem `{Runtime} (disk : FileSystem) :
  each_post disk (fun header body file post =>
    ~ has_key header "slug" ->
    exists stem, file = stem +:+ ".mdx" /\ post !! "slug" = Some (JStr stem)).
Proof.
  apply each_post_intro. intros header body slug _ Hkey.
  exists slug. split; [reflexivity|].
  apply eq_None_not_Some in Hkey.
  rewrite lookup_union_r by exact Hkey.
  apply derived_fields_lookup.
Qed.

Lemma post_slug_is_file_stem_witness :
  exists stem, "hello.mdx" = stem +:+ ".mdx" /\ Demo.hello_post !! "slug" = Some (JStr stem).
Proof.
  destruct (proj2 (@post_slug_is_file_stem Demo.runtime (Demo.disk ["hello.mdx"]))
              ["hello.mdx"] [Demo.hello_post])
    as (perFile & Hperm & Hall).
  { vm_compute. reflexivity. }
  { vm_compute. reflexivity. }
  replace (filter (@is_mdx) ["hello.mdx"]) with ["hello.mdx"] in Hall
    by (vm_compute; reflexivity).
  apply Permutation_singleton_r in Hperm as ->.
  apply Forall2_cons_1 in Hall
    as [(header & body & (fileContents & Hread & Hmatter) & Hslug) _].
  demo_file Hread Hmatter.
  apply Hslug. vm_compute. intros [value Hvalue]. discriminate.
Defined.

(** C6: for every content file whose front matter lacks an [excerpt] key,
    the parsed post has the empty string as excerpt; for every file whose
    front matter lacks a [tags] key, the parsed post has the empty array
    as tags. *)
Theorem missing_excerpt_and_tags_default `{Runtime} (disk : FileSystem) :
  each_post disk (fun header body file post =>
    (~ has_key header "excerpt" -> post !! "excerpt" = Some (JStr "")) /\
    (~ has_key header "tags" -> post !! "tags" = Some (JArr []))).
Proof.
  apply each_post_intro. intros header body slug _.
  destruct (derived_fields_lookup slug {| data := header; content := body |})
    as (_ & _ & _ & Hexcerpt & Htags & _).
  simpl in Hexcerpt, Htags.
  split; intros Hkey%eq_None_not_Some; rewrite lookup_union_r by exact Hkey.
  - rewrite Hexcerpt. unfold prop. rewrite Hkey. reflexivity.
  - rewrite Htags. unfold prop. rewrite Hkey. reflexivity.
Qed.

Lemma missing_excerpt_and_tags_default_witness :
  Demo.hello_post !! "excerpt" = Some (JStr "") /\
  Demo.hello_post !! "tags" = Some (JArr []).
Proof.
  destruct (proj1 (@missing_excerpt_and_tags_default Demo.runtime (Demo.disk ["hello.mdx"]))
              "hello" Demo.hello_post)
    as (header & body & (fileContents & Hread & Hmatter) & Hexcerpt & Htags).
  { vm_compute. reflexivity. }
  demo_file Hread Hmatter.
  split; [apply Hexcerpt | apply Htags];
    vm_compute; intros [value Hvalue]; discriminate.
Defined.

(** C7: for every file whose front matter consists of the fields [title],
    [date], [excerpt] and [tags], followed by the body text B, the parsed
    post has B as its content, unchanged, and the four values of the front
    matter as its title, date, excerpt and tags, unchanged.  The front
    matter and the body are as [gray-matter] splits the file. *)
Theorem front_matter_round_trip `{Runtime} (disk : FileSystem) :
  each_post disk (fun header body file post =>
    forall title date excerpt tags : JsValue,
      header = JObj {[ "title" := title; "date" := date;
                       "excerpt" := excerpt; "tags" := tags ]} ->
      post !! "content" = Some (JStr body) /\
      post !! "title" = Some title /\
      post !! "date" = Some date /\
      post !! "excerpt" = Some excerpt /\
      post !! "tags" = Some tags).
Proof.
  apply each_post_intro. intros header body slug _ title date excerpt tags ->.
  simpl. split.
  - rewrite lookup_union_r by (by simplify_map_eq).
    apply (derived_fields_lookup slug {| data := _; content := body |}).
  - repeat split; apply lookup_union_Some_l; by simplify_map_eq.
Qed.

Lemma front_matter_round_trip_witness :
  Demo.june_post "june" !! "content" = Some (JStr "The June post") /\
  Demo.june_post "june" !! "title" = Some (JStr "June") /\
  Demo.june_post "june" !! "date" = Some (JStr "2025-06-01") /\
  Demo.june_post "june" !! "excerpt" = Some (JStr "Half way") /\
  Demo.june_post "june" !! "tags" = Some (JArr [JStr "news"; JStr "summer"]).
Proof.
  destruct (proj1 (@front_matter_round_trip Demo.runtime (Demo.disk ["june.mdx"]))
              "june" (Demo.june_post "june"))
    as (header & body & (fileContents & Hread & Hmatter) & Hfields).
  { vm_compute. reflexivity. }
  demo_file Hread Hmatter.
  apply Hfields. vm_compute. reflexivity.
Defined.

(** C8: [getBlogPosts] returns exactly one post per entry of the content
    directory whose name ends in the recognized extension, and none for
    the other entries: whenever the entries with the extension read and
    parse and their dates can be compared, the call returns, and the list
    it returns is a rearrangement of the posts of those entries. *)
Theorem getBlogPosts_one_post_per_mdx_entry `{Runtime} (disk : FileSystem)
    (files : list string) :
  fs.readdirSync disk contentDirectory = Return files ->
  (forall perFile,
     Forall2 (fun file post => loadEntry disk file = Return post)
       (filter is_mdx files) perFile ->
     Forall (fun post => exists t, Date_getTime (prop post "date") = Return t)
       perFile ->
     exists posts, getBlogPosts disk = Return posts) /\
  (forall posts,
     getBlogPosts disk = Return posts ->
     length posts = length (filter is_mdx files) /\
     exists perFile,
       perFile ≡ₚ posts /\
       Forall2 (fun file post => loadEntry disk file = Return post)
         (filter is_mdx files) perFile).
Proof.
  intros Hdir. split.
  - intros perFile Hall Hdates. rewrite (getBlogPosts_listed _ _ Hdir).
    apply Array_map_Return in Hall. rewrite Hall. simpl.
    apply Array_sort_total. intros a b Ha Hb.
    rewrite Forall_forall in Hdates.
    destruct (Hdates a Ha) as [ta Hta]. destruct (Hdates b Hb) as [tb Htb].
    unfold byDateDescending. rewrite Hta, Htb. eexists. reflexivity.
  - intros posts Hposts.
    destruct (getBlogPosts_per_file _ _ _ Hdir Hposts) as (perFile & Hall & _ & Hperm).
    split.
    + rewrite <- Hperm. symmetry. apply (Forall2_length _ _ _ Hall).
    + exists perFile. split; assumption.
Qed.

Lemma getBlogPosts_one_post_per_mdx_entry_witness :
  @getBlogPosts Demo.runtime (Demo.disk ["hello.mdx"; "notes.txt"; "june.mdx"])
    = Return [Demo.june_post "june"; Demo.hello_post] /\
  length [Demo.june_post "june"; Demo.hello_post]
    = length (filter (@is_mdx) ["hello.mdx"; "notes.txt"; "june.mdx"]).
Proof.
  split; [vm_compute; reflexivity|].
  apply (@getBlogPosts_one_post_per_mdx_entry Demo.runtime
           (Demo.disk ["hello.mdx"; "notes.txt"; "june.mdx"])
           ["hello.mdx"; "notes.txt"; "june.mdx"]).
  - vm_compute. reflexivity.
  - vm_compute. reflexivity.
Defined.

(** C9: for every content file whose front matter has a key that collides
    with a derived or defaulted field of the post ([slug], [content],
    [readingTime], [excerpt], [tags], [title] or [date]), and indeed for
    every key of the front matter, the post returned by [getBlogPosts] and
    by [getBlogPost] has the value of the front matter under that key: the
    front matter is spread after the derived fields. *)
Theorem front_matter_overrides `{Runtime} (disk : FileSystem) :
  each_post disk (fun header body file post =>
    forall (key : string) (value : JsValue),
      own_properties header !! key = Some value -> post !! key = Some value).
Proof.
  apply each_post_intro. intros header body slug _ key value Hkey.
  apply lookup_union_Some_l, Hkey.
Qed.

(** For example a [slug] key replaces the slug derived from the file name,
    and [excerpt: null] gives a null excerpt instead of the empty string. *)
Lemma front_matter_overrides_witness :
  @getBlogPost Demo.runtime (Demo.disk ["renamed.mdx"]) "renamed"
    = Return (Some Demo.renamed_post) /\
  Demo.renamed_post !! "slug" = Some (JStr "custom") /\
  Demo.renamed_post !! "excerpt" = Some JNull.
Proof.
  split; [vm_compute; reflexivity|].
  destruct (proj1 (@front_matter_overrides Demo.runtime (Demo.disk ["renamed.mdx"]))
              "renamed" Demo.renamed_post)
    as (header & body & (fileContents & Hread & Hmatter) & Hkeys).
  { vm_compute. reflexivity. }
  demo_file Hread Hmatter.
  split; apply Hkeys; vm_compute; reflexivity.
Defined.

(** C10: for every slug, [getBlogPost] reads exactly the file at the path
    obtained by joining the content directory with the slug followed by
    the extension, and its result is decided by that file alone; nothing
    checks that the path stays inside the content directory.  In
    particular the slug [../x] names the file [x.mdx] next to the content
    directory, and when that file parses, [getBlogPost] returns the post
    built from it rather than [null]. *)
Theorem getBlogPost_path_not_confined `{Runtime} (disk : FileSystem) :
  (forall slug,
     getBlogPost disk slug =
       Return match disk !! path.join [contentDirectory; slug +:+ ".mdx"] with
              | Some (File fileContents) =>
                  match parsePost slug fileContents with
                  | Return post => Some post
                  | Throw _ => None
                  end
              | _ => None
              end) /\
  inside contentDirectory (path.join [contentDirectory; "../x" +:+ ".mdx"]) = false /\
  (forall fileContents post,
     disk !! path.join [contentDirectory; "../x" +:+ ".mdx"] = Some (File fileContents) ->
     parsePost "../x" fileContents = Return post ->
     getBlogPost disk "../x" = Return (Some post)).
Proof.
  assert (forall slug,
     getBlogPost disk slug =
       Return match disk !! path.join [contentDirectory; slug +:+ ".mdx"] with
              | Some (File fileContents) =>
                  match parsePost slug fileContents with
                  | Return post => Some post
                  | Throw _ => None
                  end
              | _ => None
              end) as Hread.
  { intros slug. rewrite getBlogPost_eq. unfold loadPost, slugPath, fs.readFileSync.
    destruct (disk !! path.join [contentDirectory; slug +:+ ".mdx"]) as [[| |]|];
      reflexivity. }
  split; [exact Hread|]. split; [apply slugPath_parent_outside|].
  intros fileContents post Hfile Hparse. rewrite Hread, Hfile, Hparse. reflexivity.
Qed.

Lemma getBlogPost_path_not_confined_witness :
  @inside "/app/src/content/blog" "/app/src/content/x.mdx" = false /\
  @getBlogPost Demo.runtime (Demo.disk ["hello.mdx"]) "../x"
    = Return (Some (Demo.june_post "../x")).
Proof.
  split; [reflexivity|].
  apply (proj2 (proj2 (@getBlogPost_path_not_confined Demo.runtime
                         (Demo.disk ["hello.mdx"]))) Demo.june_mdx).
  - vm_compute. reflexivity.
  - vm_compute. reflexivity.
Defined.

(** * More of the loader *)

(** ** [map] and [sort] once more *)

Lemma Array_map_ext_in {A B : Type} (f g : A -> completion B) (xs : list A) :
  (forall x, x ∈ xs -> f x = g x) -> Array_map f xs = Array_map g xs.
Proof.
  induction xs as [|x xs IH]; intros Hfg; simpl; [reflexivity|].
  rewrite Hfg by left. rewrite IH; [reflexivity|].
  intros y Hy. apply Hfg. right. exact Hy.
Qed.

Lemma Array_map_on_result {A B C : Type} (f : B -> C) (g : A -> completion B)
    (xs : list A) :
  Array_map (fun x => on_result f (g x)) xs = on_result (fmap f) (Array_map g xs).
Proof.
  induction xs as [|x xs IH]; simpl; [reflexivity|].
  destruct (g x) as [y|e]; simpl; [|reflexivity].
  rewrite IH. destruct (Array_map g xs); reflexivity.
Qed.

(** Sorting commutes with a function the comparator does not see. *)
Lemma sort_insert_fmap {A B : Type} (f : A -> B)
    (cmpA : A -> A -> completion (option Z)) (cmpB : B -> B -> completion (option Z))
    (x : A) (sorted : list A) :
  (forall a b, cmpB (f a) (f b) = cmpA a b) ->
  sort_insert cmpB (f x) (f <$> sorted) = on_result (fmap f) (sort_insert cmpA x sorted).
Proof.
  intros Hcmp. induction sorted as [|y rest IH]; simpl; [reflexivity|].
  rewrite Hcmp. destruct (cmpA x y) as [v|e]; simpl; [|reflexivity].
  destruct (comes_after v); [|reflexivity].
  change (list_fmap A B f rest) with (f <$> rest). rewrite IH.
  destruct (sort_insert cmpA x rest); reflexivity.
Qed.

Lemma Array_sort_fmap {A B : Type} (f : A -> B)
    (cmpA : A -> A -> completion (option Z)) (cmpB : B -> B -> completion (option Z))
    (xs : list A) :
  (forall a b, cmpB (f a) (f b) = cmpA a b) ->
  Array_sort cmpB (f <$> xs) = on_result (fmap f) (Array_sort cmpA xs).
Proof.
  intros Hcmp. induction xs as [|x xs IH]; simpl; [reflexivity|].
  change (list_fmap A B f xs) with (f <$> xs). rewrite IH.
  destruct (Array_sort cmpA xs) as [s|e]; simpl; [|reflexivity].
  apply sort_insert_fmap, Hcmp.
Qed.

(** A list on which no element has to move behind its successor is left
    as it is. *)
Lemma Array_sort_in_order {A : Type} (comparefn : A -> A -> completion (option Z))
    (xs : list A) :
  (forall i a b, xs !! i = Some a -> xs !! S i = Some b ->
     exists v, comparefn a b = Return v /\ comes_after v = false) ->
  Array_sort comparefn xs = Return xs.
Proof.
  induction xs as [|x xs IH]; intros Hadj; simpl; [reflexivity|].
  rewrite IH by (intros i a b Ha Hb; apply (Hadj (S i)); assumption).
  simpl. destruct xs as [|y rest]; [reflexivity|]. simpl.
  destruct (Hadj 0%nat x y eq_refl eq_refl) as (v & -> & Hv). simpl.
  rewrite Hv. reflexivity.
Qed.

(** With a comparator that is the difference of two keys, elements with
    the same key keep their order: the sort is stable. *)
Section StableSort.
Context {A : Type} (comparefn : A -> A -> completion (option Z)) (key : A -> Z).

Lemma sort_insert_stable (t : Z) (x : A) (sorted result : list A) :
  (forall y, y ∈ sorted -> comparefn x y = Return (Some (key y - key x))) ->
  sort_insert comparefn x sorted = Return result ->
  filter (fun a => key a = t) result = filter (fun a => key a = t) (x :: sorted).
Proof.
  revert result. induction sorted as [|y rest IH]; intros result Hcmp; simpl.
  - intros [= <-]. reflexivity.
  - rewrite (Hcmp y) by left. simpl.
    destruct (Z.ltb_spec 0 (key y - key x)) as [Hlt|Hge].
    + intros Hins. apply bind_Return in Hins as (r & Hr & [= <-]).
      rewrite (filter_cons _ y r), (IH r); [|intros; apply Hcmp; right; assumption|exact Hr].
      rewrite !filter_cons.
      destruct (decide (key y = t)), (decide (key x = t)); try reflexivity; lia.
    + intros [= <-]. reflexivity.
Qed.

Lemma Array_sort_stable (t : Z) (xs result : list A) :
  (forall a b, a ∈ xs -> b ∈ xs -> comparefn a b = Return (Some (key b - key a))) ->
  Array_sort comparefn xs = Return result ->
  filter (fun a => key a = t) result = filter (fun a => key a = t) xs.
Proof.
  revert result. induction xs as [|x xs IH]; intros result Hcmp; simpl.
  - intros [= <-]. reflexivity.
  - intros Hsort. apply bind_Return in Hsort as (s & Hs & Hins).
    rewrite (sort_insert_stable t x s result); [| |exact Hins].
    + rewrite !filter_cons. rewrite (IH s); [reflexivity| |exact Hs].
      intros a b Ha Hb. apply Hcmp; right; assumption.
    + intros y Hy. apply Hcmp; [left|right].
      rewrite (Array_sort_Permutation _ _ _ Hs). exact Hy.
Qed.

End StableSort.

Lemma Forall2_Permutation_l {A B : Type} (Q : A -> B -> Prop) (xs xs' : list A)
    (ys : list B) :
  Forall2 Q xs ys -> xs ≡ₚ xs' -> exists ys', ys ≡ₚ ys' /\ Forall2 Q xs' ys'.
Proof.
  intros HQ Hperm. revert ys HQ.
  induction Hperm as [|x xs xs' _ IH|x y xs|xs xs' xs'' _ IH1 _ IH2]; intros ys HQ.
  - exists ys. split; [reflexivity | exact HQ].
  - apply Forall2_cons_inv_l in HQ as (y & ys0 & Hxy & HQ & ->).
    destruct (IH ys0 HQ) as (ys' & Hys' & HQ').
    exists (y :: ys'). split; [rewrite Hys'; reflexivity | constructor; assumption].
  - apply Forall2_cons_inv_l in HQ as (b & ys0 & Hyb & HQ & ->).
    apply Forall2_cons_inv_l in HQ as (a & ys1 & Hxa & HQ & ->).
    exists (a :: b :: ys1). split; [apply Permutation_swap|].
    repeat constructor; assumption.
  - destruct (IH1 ys HQ) as (ys' & Hys' & HQ').
    destruct (IH2 ys' HQ') as (ys'' & Hys'' & HQ'').
    exists ys''. split; [rewrite Hys'; exact Hys'' | exact HQ''].
Qed.

Lemma NoDup_fmap_eq {A B : Type} (f : A -> B) (xs : list A) (x y : A) :
  NoDup (f <$> xs) -> x ∈ xs -> y ∈ xs -> f x = f y -> x = y.
Proof.
  induction xs as [|z xs IH]; intros Hnd Hx Hy Hxy; [inversion Hx|].
  rewrite fmap_cons in Hnd. apply NoDup_cons in Hnd as [Hz Hnd].
  apply elem_of_cons in Hx as [->|Hx]; apply elem_of_cons in Hy as [->|Hy].
  - reflexivity.
  - destruct Hz. rewrite Hxy. apply list_elem_of_fmap_2. exact Hy.
  - destruct Hz. rewrite <- Hxy. apply list_elem_of_fmap_2. exact Hx.
  - apply IH; assumption.
Qed.

(** ** What the listing reads, and what a post holds *)

(** X1: [getBlogPosts] looks at the content directory and at the files of
    its entries that have the extension, and at nothing else: two disks
    that agree there give the same result.  Entries without the extension
    are never opened. *)
Theorem getBlogPosts_reads_only_entries `{Runtime} (disk disk' : FileSystem) :
  disk !! contentDirectory = disk' !! contentDirectory ->
  (forall files, disk !! contentDirectory = Some (Directory files) ->
     same_entries disk disk' files) ->
  getBlogPosts disk = getBlogPosts disk'.
Proof.
  intros Hdir Hfiles. rewrite !getBlogPosts_eq.
  unfold fs.existsSync, fs.readdirSync. rewrite <- Hdir.
  destruct (disk !! contentDirectory) as [[text|files|]|] eqn:Hnode;
    try reflexivity.
  destruct (negb (bool_decide (is_Some (Some (Directory files))))); [reflexivity|].
  simpl. rewrite (Array_map_ext_in (loadEntry disk) (loadEntry disk')); [reflexivity|].
  intros file [Hext Hfile]%list_elem_of_filter.
  unfold loadEntry, loadPost, fs.readFileSync.
  rewrite (Hfiles files eq_refl file Hfile) by (apply Is_true_true, Hext).
  reflexivity.
Qed.

Lemma getBlogPosts_reads_only_entries_witness :
  @getBlogPosts Demo.runtime
    (<["/app/src/content/blog/notes.txt" := Denied]>
       (delete "/app/src/content/x.mdx" (Demo.disk ["hello.mdx"; "notes.txt"])))
  = Return [Demo.hello_post].
Proof.
  rewrite <- (@getBlogPosts_reads_only_entries Demo.runtime
                (Demo.disk ["hello.mdx"; "notes.txt"])).
  - reflexivity.
  - reflexivity.
  - intros files [= <-] file Hfile Hext.
    apply elem_of_cons in Hfile as [->|Hfile]; [reflexivity|].
    apply elem_of_cons in Hfile as [->|Hfile]; [discriminate Hext|].
    inversion Hfile.
Defined.

(** X2: the keys of a post are the keys of its front matter and the seven
    keys the loader defines ([slug], [title], [date], [excerpt], [tags],
    [readingTime], [content]); no key of the front matter is dropped and
    no other key appears. *)
Theorem post_keys `{Runtime} (disk : FileSystem) :
  each_post disk (fun header body file post =>
    dom post = dom (own_properties header) ∪ derived_keys).
Proof.
  apply each_post_intro. intros header body slug _.
  rewrite dom_union_L. f_equal.
Qed.

Lemma post_keys_witness :
  exists header body,
    @front_matter Demo.runtime (Demo.disk ["renamed.mdx"])
      "/app/src/content/blog/renamed.mdx" header body /\
    dom Demo.renamed_post = dom (own_properties header) ∪ derived_keys.
Proof.
  apply (proj1 (@post_keys Demo.runtime (Demo.disk ["renamed.mdx"]))
           "renamed" Demo.renamed_post).
  reflexivity.
Defined.

(** X3: under a key the front matter lacks, the post has the value the
    loader derives: [title] and [date] are present and undefined,
    [content] is the body as [gray-matter] returns it, and [readingTime]
    is the text [reading-time] gives for that body. *)
Theorem missing_keys_derived `{Runtime} (disk : FileSystem) :
  each_post disk (fun header body file post =>
    (~ has_key header "title" -> post !! "title" = Some JUndefined) /\
    (~ has_key header "date" -> post !! "date" = Some JUndefined) /\
    (~ has_key header "content" -> post !! "content" = Some (JStr body)) /\
    (~ has_key header "readingTime" ->
       post !! "readingTime" = Some (JStr (text (readingTime body))))).
Proof.
  apply each_post_intro. intros header body slug _.
  destruct (derived_fields_lookup slug {| data := header; content := body |})
    as (_ & Htitle & Hdate & _ & _ & Hreading & Hcontent).
  simpl in Htitle, Hdate, Hreading, Hcontent.
  repeat split; intros Hkey%eq_None_not_Some; rewrite lookup_union_r by exact Hkey.
  - rewrite Htitle. unfold prop. rewrite Hkey. reflexivity.
  - rewrite Hdate. unfold prop. rewrite Hkey. reflexivity.
  - exact Hcontent.
  - exact Hreading.
Qed.

Lemma missing_keys_derived_witness :
  exists header body,
    @front_matter Demo.runtime (Demo.disk ["undated.mdx"])
      "/app/src/content/blog/undated.mdx" header body /\
    (~ has_key header "title" -> Demo.undated_post !! "title" = Some JUndefined) /\
    (~ has_key header "date" -> Demo.undated_post !! "date" = Some JUndefined) /\
    (~ has_key header "content" -> Demo.undated_post !! "content" = Some (JStr body)) /\
    (~ has_key header "readingTime" ->
       Demo.undated_post !! "readingTime"
         = Some (JStr (text (@readingTime Demo.runtime body)))).
Proof.
  apply (proj1 (@missing_keys_derived Demo.runtime (Demo.disk ["undated.mdx"]))
           "undated" Demo.undated_post).
  reflexivity.
Defined.

(** X4: the listing and the lookup agree: every post [getBlogPosts] lists
    for a directory entry is the post [getBlogPost] returns for the name of
    the entry without its extension (which is the slug of the post unless
    the front matter overrides it). *)
Theorem listed_posts_found_by_stem `{Runtime} (disk : FileSystem)
    (files : list string) (posts : list BlogPost) :
  fs.readdirSync disk contentDirectory = Return files ->
  getBlogPosts disk = Return posts ->
  exists perFile,
    perFile ≡ₚ posts /\
    Forall2
      (fun file post => getBlogPost disk (replace_mdx_end file) = Return (Some post))
      (filter is_mdx files) perFile.
Proof.
  intros Hdir Hposts.
  destruct (getBlogPosts_per_file _ _ _ Hdir Hposts) as (perFile & Hall & _ & Hperm).
  exists perFile. split; [exact Hperm|].
  apply (Forall2_impl_Forall _ _ (fun file => is_mdx file = true) _ _ Hall).
  - apply Forall_forall. intros file [Hext _]%list_elem_of_filter.
    apply Is_true_true, Hext.
  - intros file post Hext Hload. rewrite getBlogPost_eq.
    unfold slugPath. rewrite (replace_mdx_end_cut file Hext).
    unfold loadEntry, entryPath in Hload. rewrite Hload. reflexivity.
Qed.

Lemma listed_posts_found_by_stem_witness :
  exists perFile,
    perFile ≡ₚ [Demo.renamed_post] /\
    Forall2
      (fun file post =>
         @getBlogPost Demo.runtime (Demo.disk ["notes.txt"; "renamed.mdx"])
           (replace_mdx_end file) = Return (Some post))
      (filter (@is_mdx) ["notes.txt"; "renamed.mdx"]) perFile.
Proof.
  apply (@listed_posts_found_by_stem Demo.runtime (Demo.disk ["notes.txt"; "renamed.mdx"])).
  - reflexivity.
  - reflexivity.
Defined.

(** ** Ties, undated posts and the order of the directory listing *)

(** X5: when every post has a valid date, posts with the same date keep
    the order in which the directory lists their entries: for every time
    [t], the posts dated [t] come in the returned list as they come entry
    by entry. *)
Theorem getBlogPosts_ties_keep_listing_order `{Runtime} (disk : FileSystem)
    (files : list string) (posts : list BlogPost) :
  fs.readdirSync disk contentDirectory = Return files ->
  getBlogPosts disk = Return posts ->
  Forall valid_date posts ->
  exists perFile,
    entry_posts disk files perFile /\
    forall t, dated t posts = dated t perFile.
Proof.
  intros Hdir Hposts Hvalid.
  destruct (getBlogPosts_per_file _ _ _ Hdir Hposts) as (perFile & Hall & Hsort & Hperm).
  exists perFile. split; [exact Hall|]. intros t.
  apply (Array_sort_stable byDateDescending time_of t perFile posts); [|exact Hsort].
  rewrite Forall_forall in Hvalid.
  intros a b Ha Hb. apply byDateDescending_valid; apply Hvalid; rewrite <- Hperm; assumption.
Qed.

(** The disk lists [renamed.mdx] before [hello.mdx], both dated
    2025-01-01, and [june.mdx] between them. *)
Lemma getBlogPosts_ties_keep_listing_order_witness :
  exists perFile,
    @entry_posts Demo.runtime (Demo.disk ["renamed.mdx"; "june.mdx"; "hello.mdx"])
      ["renamed.mdx"; "june.mdx"; "hello.mdx"] perFile /\
    forall t,
      @dated Demo.runtime t [Demo.june_post "june"; Demo.renamed_post; Demo.hello_post]
        = @dated Demo.runtime t perFile.
Proof.
  apply (@getBlogPosts_ties_keep_listing_order Demo.runtime
           (Demo.disk ["renamed.mdx"; "june.mdx"; "hello.mdx"])
           ["renamed.mdx"; "june.mdx"; "hello.mdx"]
           [Demo.june_post "june"; Demo.renamed_post; Demo.hello_post]).
  - reflexivity.
  - reflexivity.
  - repeat constructor; eexists; reflexivity.
Defined.

(** X6: when no post has a valid date (the front matters have no [date],
    or dates that do not parse), the comparator is NaN on every pair and
    [getBlogPosts] returns the posts in the order of the directory
    listing. *)
Theorem getBlogPosts_undated_keep_listing_order `{Runtime} (disk : FileSystem)
    (files : list string) (perFile : list BlogPost) :
  fs.readdirSync disk contentDirectory = Return files ->
  entry_posts disk files perFile ->
  Forall invalid_date perFile ->
  getBlogPosts disk = Return perFile.
Proof.
  intros Hdir Hall Hinvalid. rewrite (getBlogPosts_listed _ _ Hdir).
  apply Array_map_Return in Hall. rewrite Hall. simpl.
  apply Array_sort_in_order. intros i a b Ha Hb.
  rewrite Forall_forall in Hinvalid.
  exists None. split; [|reflexivity].
  unfold byDateDescending.
  rewrite (Hinvalid b (list_elem_of_lookup_2 _ _ _ Hb)).
  rewrite (Hinvalid a (list_elem_of_lookup_2 _ _ _ Ha)). reflexivity.
Qed.

Lemma getBlogPosts_undated_keep_listing_order_witness :
  @getBlogPosts Demo.runtime (MoreDemo.plain_disk ["undated.mdx"; "notes.txt"; "plain.mdx"])
    = Return [Demo.undated_post; MoreDemo.plain_post].
Proof.
  apply (@getBlogPosts_undated_keep_listing_order Demo.runtime
           (MoreDemo.plain_disk ["undated.mdx"; "notes.txt"; "plain.mdx"])
           ["undated.mdx"; "notes.txt"; "plain.mdx"]).
  - reflexivity.
  - unfold entry_posts.
    change (filter (@is_mdx) ["undated.mdx"; "notes.txt"; "plain.mdx"])
      with ["undated.mdx"; "plain.mdx"].
    repeat constructor; reflexivity.
  - repeat constructor; reflexivity.
Defined.

(** X7: the result does not depend on the order in which the system lists
    the directory, as long as the dates are valid and no two posts have the
    same date: two disks with the same entries in a different order, and
    the same files, give the same list. *)
Theorem getBlogPosts_listing_order_irrelevant `{Runtime} (disk disk' : FileSystem)
    (files files' : list string) (posts : list BlogPost) :
  fs.readdirSync disk contentDirectory = Return files ->
  fs.readdirSync disk' contentDirectory = Return files' ->
  files ≡ₚ files' ->
  same_entries disk disk' files ->
  getBlogPosts disk = Return posts ->
  Forall valid_date posts ->
  NoDup (time_of <$> posts) ->
  getBlogPosts disk' = Return posts.
Proof.
  intros Hdir Hdir' Hfiles Hsame Hposts Hvalid Hdistinct.
  destruct (getBlogPosts_per_file _ _ _ Hdir Hposts) as (perFile & Hall & Hsort & Hperm).
  assert (Forall2 (fun file post => loadEntry disk' file = Return post)
            (filter is_mdx files) perFile) as Hall'.
  { apply (Forall2_impl_Forall _ _
             (fun file => file ∈ files /\ is_mdx file = true) _ _ Hall).
    - apply Forall_forall. intros file [Hext Hfile]%list_elem_of_filter.
      split; [exact Hfile | apply Is_true_true, Hext].
    - intros file post [Hfile Hext] Hload. rewrite <- Hload.
      unfold loadEntry, loadPost, fs.readFileSync.
      rewrite (Hsame file Hfile Hext). reflexivity. }
  destruct (Forall2_Permutation_l _ _ (filter is_mdx files') _ Hall')
    as (perFile' & Hperm' & Hall'').
  { rewrite Hfiles. reflexivity. }
  rewrite (getBlogPosts_listed _ _ Hdir').
  apply Array_map_Return in Hall''. rewrite Hall''. simpl.
  rewrite Forall_forall in Hvalid.
  assert (forall p, p ∈ perFile' -> valid_date p) as Hvalid'.
  { intros p Hp. apply Hvalid. rewrite <- Hperm, Hperm'. exact Hp. }
  destruct (Array_sort_keyed byDateDescending time_of perFile')
    as (sorted' & Hsort' & Hdesc' & Hsperm').
  { intros a b Ha Hb. apply byDateDescending_valid; apply Hvalid'; assumption. }
  destruct (Array_sort_keyed byDateDescending time_of perFile)
    as (sorted & Hsorted & Hdesc & _).
  { intros a b Ha Hb. apply byDateDescending_valid; apply Hvalid;
      rewrite <- Hperm; assumption. }
  rewrite Hsort in Hsorted. injection Hsorted as <-.
  rewrite Hsort'. f_equal.
  assert (Transitive (fun a b : BlogPost => time_of b <= time_of a)) as Htrans
    by (intros x y z; lia).
  apply (Sorted_unique_strong (fun a b : BlogPost => time_of b <= time_of a));
    [|exact Hdesc'|exact Hdesc|].
  - intros x1 x2 Hx1 Hx2 H12 H21.
    apply (NoDup_fmap_eq time_of posts); [exact Hdistinct| |exact Hx2|lia].
    rewrite <- Hperm, Hperm', Hsperm'. exact Hx1.
  - rewrite <- Hsperm', <- Hperm', Hperm. reflexivity.
Qed.

Lemma getBlogPosts_listing_order_irrelevant_witness :
  @getBlogPosts Demo.runtime (Demo.disk ["june.mdx"; "hello.mdx"])
    = Return [Demo.june_post "june"; Demo.hello_post].
Proof.
  apply (@getBlogPosts_listing_order_irrelevant Demo.runtime
           (Demo.disk ["hello.mdx"; "june.mdx"]) (Demo.disk ["june.mdx"; "hello.mdx"])
           ["hello.mdx"; "june.mdx"] ["june.mdx"; "hello.mdx"]).
  - reflexivity.
  - reflexivity.
  - apply Permutation_swap.
  - intros file Hfile Hext.
    apply elem_of_cons in Hfile as [->|Hfile]; [reflexivity|].
    apply elem_of_cons in Hfile as [->|Hfile]; [reflexivity|].
    inversion Hfile.
  - reflexivity.
  - repeat constructor; eexists; reflexivity.
  - change (NoDup [1748736000000; 1735689600000]).
    apply NoDup_cons. split; [|apply NoDup_singleton].
    intros Hin%list_elem_of_singleton. discriminate.
Defined.

(** ** The two versions of [blog.ts] *)

Section Revision.
Context `{Runtime}.

Lemma V1_getBlogPosts_eq (disk : FileSystem) :
  V1.getBlogPosts disk =
    (files ← fs.readdirSync disk contentDirectory;
     posts ← Array_map (loadEntry_v1 disk) (filter is_mdx files);
     Array_sort byDateDescending posts).
Proof.
  unfold V1.getBlogPosts. apply bind_ext. intros files _.
  rewrite (Array_map_ext _ (loadEntry_v1 disk)); [reflexivity|].
  intros file. unfold loadEntry_v1, parsePost_v1, entryPath.
  destruct (fs.readFileSync disk (path.join [contentDirectory; file]))
    as [fileContents|e]; simpl; [|reflexivity].
  destruct (matter fileContents) as [[header body]|e]; reflexivity.
Qed.

Lemma V1_getBlogPost_eq (disk : FileSystem) (slug : string) :
  V1.getBlogPost disk slug =
    Return match fileContents ← fs.readFileSync disk (slugPath slug);
                 parsePost_v1 slug fileContents with
           | Return post => Some post
           | Throw _ => None
           end.
Proof.
  unfold V1.getBlogPost, parsePost_v1, slugPath.
  destruct (fs.readFileSync disk (path.join [contentDirectory; slug +:+ ".mdx"]))
    as [fileContents|e]; simpl; [|reflexivity].
  destruct (matter fileContents) as [[header body]|e]; simpl; [|reflexivity].
  destruct (get header "title") as [title|e]; simpl; [|reflexivity].
  destruct (get header "date") as [date|e]; simpl; [|reflexivity].
  destruct (get header "excerpt") as [excerpt|e]; reflexivity.
Qed.

(** The object of the second version is the object of the first with the
    [tags] default. *)
Lemma object_with_default_tags (own fields : JsObject) :
  fields !! "tags" = None ->
  own ∪ <["tags" := js_or (prop own "tags") (JArr [])]> fields
    = with_default_tags (own ∪ fields).
Proof.
  intros Hfields. unfold with_default_tags, prop.
  rewrite lookup_union, Hfields.
  destruct (own !! "tags") as [tags|] eqn:Htags; simpl.
  - apply map_eq. intros key. rewrite !lookup_union.
    destruct (decide (key = "tags")) as [->|Hkey].
    + rewrite Htags, lookup_insert_eq, Hfields. reflexivity.
    + rewrite lookup_insert_ne by congruence. reflexivity.
  - symmetry. apply insert_union_r. exact Htags.
Qed.

Lemma parsePost_with_default_tags (slug fileContents : string) :
  parsePost slug fileContents
    = on_result with_default_tags (parsePost_v1 slug fileContents).
Proof.
  unfold parsePost, parsePost_v1.
  destruct (matter fileContents) as [[header body]|e]; simpl; [|reflexivity].
  destruct (nullish header) eqn:Hnull.
  - destruct (get_Throw header "title" Hnull) as [e ->]. reflexivity.
  - rewrite !get_Return by exact Hnull. simpl. f_equal.
    unfold object_literal. simpl.
    rewrite (insert_insert_ne _ "readingTime" "tags") by discriminate.
    rewrite (insert_insert_ne _ "content" "tags") by discriminate.
    apply object_with_default_tags.
    rewrite !lookup_insert_ne by discriminate. apply lookup_empty.
Qed.

Lemma loadEntry_with_default_tags (disk : FileSystem) (file : string) :
  loadEntry disk file = on_result with_default_tags (loadEntry_v1 disk file).
Proof.
  unfold loadEntry, loadPost, loadEntry_v1.
  destruct (fs.readFileSync disk (entryPath file)) as [fileContents|e]; simpl;
    [apply parsePost_with_default_tags | reflexivity].
Qed.

Lemma byDateDescending_with_default_tags (a b : BlogPost) :
  byDateDescending (with_default_tags a) (with_default_tags b) = byDateDescending a b.
Proof.
  assert (forall p, prop (with_default_tags p) "date" = prop p "date") as Hdate.
  { intros p. unfold with_default_tags, prop.
    destruct (p !! "tags"); [reflexivity|].
    rewrite lookup_insert_ne by discriminate. reflexivity. }
  unfold byDateDescending. rewrite !Hdate. reflexivity.
Qed.

End Revision.

(** X8: the second version of [getBlogPosts] differs from the first in two
    ways only.  Where the content directory is missing the first throws
    ENOENT and the second returns the empty list; where something is at
    that path, the second returns what the first returns (or throws what
    it throws), each post given an empty [tags] array if it has no [tags],
    in the same order. *)
Theorem getBlogPosts_revision `{Runtime} (disk : FileSystem) :
  (disk !! contentDirectory = None ->
     V1.getBlogPosts disk = Throw (SystemError "ENOENT" contentDirectory) /\
     getBlogPosts disk = Return []) /\
  (is_Some (disk !! contentDirectory) ->
     getBlogPosts disk
       = on_result (fmap with_default_tags) (V1.getBlogPosts disk)).
Proof.
  split.
  - intros Hmissing. split.
    + rewrite V1_getBlogPosts_eq. unfold fs.readdirSync. rewrite Hmissing. reflexivity.
    + unfold getBlogPosts, fs.existsSync. rewrite Hmissing.
      rewrite bool_decide_eq_false_2; [reflexivity|].
      intros [node Hnode]. discriminate.
  - intros Hexists. rewrite getBlogPosts_eq, V1_getBlogPosts_eq.
    unfold fs.existsSync. rewrite bool_decide_eq_true_2 by exact Hexists. simpl.
    destruct (fs.readdirSync disk contentDirectory) as [files|e]; simpl; [|reflexivity].
    rewrite (Array_map_ext (loadEntry disk)
               (fun file => on_result with_default_tags (loadEntry_v1 disk file)))
      by apply loadEntry_with_default_tags.
    rewrite Array_map_on_result.
    destruct (Array_map (loadEntry_v1 disk) (filter is_mdx files)) as [posts|e]; simpl;
      [|reflexivity].
    apply Array_sort_fmap, byDateDescending_with_default_tags.
Qed.

Lemma getBlogPosts_revision_witness :
  @V1.getBlogPosts Demo.runtime (Demo.disk ["hello.mdx"; "june.mdx"])
    = Return [Demo.june_post "june"; MoreDemo.hello_post_v1] /\
  @getBlogPosts Demo.runtime (Demo.disk ["hello.mdx"; "june.mdx"])
    = Return [Demo.june_post "june"; Demo.hello_post].
Proof.
  split; [reflexivity|].
  rewrite (proj2 (@getBlogPosts_revision Demo.runtime (Demo.disk ["hello.mdx"; "june.mdx"])))
    by (eexists; reflexivity).
  reflexivity.
Defined.

(** X9: the second version of [getBlogPost] returns [null] exactly when
    the first does, and otherwise the post of the first, given an empty
    [tags] array if it has no [tags]. *)
Theorem getBlogPost_revision `{Runtime} (disk : FileSystem) (slug : string) :
  getBlogPost disk slug
    = on_result (fmap with_default_tags) (V1.getBlogPost disk slug).
Proof.
  rewrite getBlogPost_eq, V1_getBlogPost_eq. unfold loadPost.
  destruct (fs.readFileSync disk (slugPath slug)) as [fileContents|e]; simpl;
    [|reflexivity].
  rewrite parsePost_with_default_tags.
  destruct (parsePost_v1 slug fileContents); reflexivity.
Qed.

Lemma getBlogPost_revision_witness :
  @V1.getBlogPost Demo.runtime (Demo.disk ["hello.mdx"]) "hello"
    = Return (Some MoreDemo.hello_post_v1) /\
  @getBlogPost Demo.runtime (Demo.disk ["hello.mdx"]) "hello"
    = Return (Some Demo.hello_post).
Proof.
  split; [reflexivity|].
  rewrite (@getBlogPost_revision Demo.runtime (Demo.disk ["hello.mdx"]) "hello").
  reflexivity.
Defined.

(** ** Slugs *)

Section Slugs.
Context `{Runtime}.

Lemma front_matter_unique (disk : FileSystem) (filePath : string)
    (header header' : JsValue) (body body' : string) :
  front_matter disk filePath header body ->
  front_matter disk filePath header' body' ->
  header = header' /\ body = body'.
Proof.
  intros (c & Hread & Hmatter) (c' & Hread' & Hmatter').
  rewrite Hread in Hread'. injection Hread' as <-.
  rewrite Hmatter in Hmatter'. injection Hmatter' as <- <-. split; reflexivity.
Qed.

(** The post of an entry whose front matter has no [slug] key has the
    name of the entry, without the extension, as slug. *)
Lemma loadEntry_slug (disk : FileSystem) (file : string) (post : BlogPost) :
  loadEntry disk file = Return post ->
  (forall header body,
     front_matter disk (entryPath file) header body -> ~ has_key header "slug") ->
  post !! "slug" = Some (JStr (replace_mdx_end file)).
Proof.
  intros Hload Hnokey.
  apply loadPost_Return in Hload as (header & body & Hfm & _ & ->).
  apply Hnokey in Hfm. apply eq_None_not_Some in Hfm.
  rewrite lookup_union_r by exact Hfm. apply derived_fields_lookup.
Qed.

Lemma replace_mdx_end_inj (file file' : string) :
  is_mdx file = true -> is_mdx file' = true ->
  replace_mdx_end file = replace_mdx_end file' -> file = file'.
Proof.
  intros Hext Hext' Hstem.
  rewrite <- (replace_mdx_end_cut file Hext), <- (replace_mdx_end_cut file' Hext').
  rewrite Hstem. reflexivity.
Qed.

End Slugs.

(** X10: slugs are unique: when the directory lists every name once and no
    front matter sets a [slug] key, no two posts of the list returned by
    [getBlogPosts] have the same slug. *)
Theorem listed_slugs_distinct `{Runtime} (disk : FileSystem) (files : list string)
    (posts : list BlogPost) :
  fs.readdirSync disk contentDirectory = Return files ->
  NoDup files ->
  getBlogPosts disk = Return posts ->
  (forall file header body,
     file ∈ files -> is_mdx file = true ->
     front_matter disk (entryPath file) header body -> ~ has_key header "slug") ->
  NoDup ((fun post => post !! "slug") <$> posts).
Proof.
  intros Hdir Hnodup Hposts Hnokey.
  destruct (getBlogPosts_per_file _ _ _ Hdir Hposts) as (perFile & Hall & _ & Hperm).
  rewrite <- Hperm.
  assert ((fun post : BlogPost => post !! "slug") <$> perFile
          = (fun file => Some (JStr (replace_mdx_end file))) <$> filter is_mdx files)
    as ->.
  { assert (Forall (fun file => file ∈ files /\ is_mdx file = true) (filter is_mdx files))
      as Hmdx.
    { apply Forall_forall. intros file [Hext Hfile]%list_elem_of_filter.
      split; [exact Hfile | apply Is_true_true, Hext]. }
    clear Hperm.
    induction Hall as [|file post mdx perFile Hload _ IH]; [reflexivity|].
    apply Forall_cons in Hmdx as [[Hfile Hext] Hmdx].
    rewrite !fmap_cons, (IH Hmdx). f_equal.
    apply (loadEntry_slug _ _ _ Hload). intros header body. apply Hnokey; assumption. }
  apply NoDup_fmap_2_strong; [|apply NoDup_filter, Hnodup].
  intros file file' [Hext _]%list_elem_of_filter [Hext' _]%list_elem_of_filter [= Hstem].
  apply replace_mdx_end_inj; [apply Is_true_true, Hext | apply Is_true_true, Hext' | exact Hstem].
Qed.

Lemma listed_slugs_distinct_witness :
  NoDup ((fun post : BlogPost => post !! "slug")
           <$> [Demo.june_post "june"; Demo.hello_post]).
Proof.
  apply (@listed_slugs_distinct Demo.runtime (Demo.disk ["hello.mdx"; "june.mdx"])
           ["hello.mdx"; "june.mdx"]).
  - reflexivity.
  - apply NoDup_cons. split; [|apply NoDup_singleton].
    intros Hin%list_elem_of_singleton. discriminate.
  - reflexivity.
  - intros file header body Hfile _ (fileContents & Hread & Hmatter).
    apply elem_of_cons in Hfile as [->|Hfile].
    + injection Hread as <-. injection Hmatter as <- _.
      intros [value Hvalue]. discriminate.
    + apply elem_of_cons in Hfile as [->|Hfile]; [|inversion Hfile].
      injection Hread as <-. injection Hmatter as <- _.
      intros [value Hvalue]. discriminate.
Defined.

(** X11: a post of the list can be fetched by its slug: for every entry
    whose front matter has no [slug] key, [getBlogPost], given the slug of
    the post [getBlogPosts] lists for the entry, returns that post. *)
Theorem listed_post_found_by_slug `{Runtime} (disk : FileSystem)
    (files : list string) (posts : list BlogPost) :
  fs.readdirSync disk contentDirectory = Return files ->
  getBlogPosts disk = Return posts ->
  exists perFile,
    perFile ≡ₚ posts /\
    Forall2
      (fun file post =>
         (forall header body,
            front_matter disk (entryPath file) header body -> ~ has_key header "slug") ->
         exists slug,
           post !! "slug" = Some (JStr slug) /\
           getBlogPost disk slug = Return (Some post))
      (filter is_mdx files) perFile.
Proof.
  intros Hdir Hposts.
  destruct (getBlogPosts_per_file _ _ _ Hdir Hposts) as (perFile & Hall & _ & Hperm).
  exists perFile. split; [exact Hperm|].
  apply (Forall2_impl_Forall _ _ (fun file => is_mdx file = true) _ _ Hall).
  - apply Forall_forall. intros file [Hext _]%list_elem_of_filter.
    apply Is_true_true, Hext.
  - intros file post Hext Hload Hnokey. exists (replace_mdx_end file).
    split; [apply (loadEntry_slug _ _ _ Hload Hnokey)|].
    rewrite getBlogPost_eq. unfold slugPath. rewrite (replace_mdx_end_cut file Hext).
    unfold loadEntry, entryPath in Hload. rewrite Hload. reflexivity.
Qed.

Lemma listed_post_found_by_slug_witness :
  exists perFile,
    perFile ≡ₚ [Demo.hello_post] /\
    Forall2
      (fun file post =>
         (forall header body,
            @front_matter Demo.runtime (Demo.disk ["hello.mdx"])
              (@entryPath Demo.runtime file) header body ->
            ~ has_key header "slug") ->
         exists slug,
           post !! "slug" = Some (JStr slug) /\
           @getBlogPost Demo.runtime (Demo.disk ["hello.mdx"]) slug = Return (Some post))
      (filter (@is_mdx) ["hello.mdx"]) perFile.
Proof.
  apply (@listed_post_found_by_slug Demo.runtime (Demo.disk ["hello.mdx"])).
  - reflexivity.
  - reflexivity.
Defined.

(** ** File names and slugs, and the first failure *)

(** X12: file names and slugs round-trip: the name [getBlogPost] builds
    for a slug has the extension and [getBlogPosts] derives that slug back
    from it; and a directory entry with the extension is the name
    [getBlogPost] builds for the slug [getBlogPosts] derives from it. *)
Theorem slug_file_name_round_trip (slug file : string) :
  (is_mdx (slug +:+ ".mdx") = true /\
   replace_mdx_end (slug +:+ ".mdx") = slug) /\
  (is_mdx file = true -> replace_mdx_end file +:+ ".mdx" = file).
Proof.
  split; [split|].
  - apply endsWith_append.
  - apply replace_mdx_end_append.
  - apply replace_mdx_end_cut.
Qed.

Lemma slug_file_name_round_trip_witness :
  replace_mdx_end "notes.mdx.mdx" +:+ ".mdx" = "notes.mdx.mdx".
Proof.
  apply (proj2 (slug_file_name_round_trip "notes.mdx" "notes.mdx.mdx")).
  reflexivity.
Defined.

Lemma Array_map_first_Throw {A B : Type} (f : A -> completion B) (xs ys : list A)
    (x : A) (e : JsError) :
  Forall (fun x' => exists y, f x' = Return y) xs ->
  f x = Throw e ->
  Array_map f (xs ++ x :: ys) = Throw e.
Proof.
  intros Hxs Hx. induction Hxs as [|x' xs [y Hy] _ IH]; simpl.
  - rewrite Hx. reflexivity.
  - rewrite Hy. simpl. rewrite IH. reflexivity.
Qed.

(** X13: the exception [getBlogPosts] throws is that of the first entry,
    in the order of the directory listing, that has the extension and
    fails to read or parse; what the later entries hold is not looked
    at. *)
Theorem getBlogPosts_first_failure `{Runtime} (disk : FileSystem)
    (before after : list string) (file : string) (e : JsError) :
  fs.readdirSync disk contentDirectory = Return (before ++ file :: after) ->
  Forall (fun f => is_mdx f = true -> exists post, loadEntry disk f = Return post)
    before ->
  is_mdx file = true ->
  loadEntry disk file = Throw e ->
  getBlogPosts disk = Throw e.
Proof.
  intros Hdir Hbefore Hext Hload.
  rewrite (getBlogPosts_listed _ _ Hdir).
  rewrite filter_app, filter_cons_True by (rewrite Hext; exact I).
  rewrite (Array_map_first_Throw _ _ _ _ e); [reflexivity| |exact Hload].
  apply Forall_forall. intros f [Hf Hin]%list_elem_of_filter.
  rewrite Forall_forall in Hbefore. apply (Hbefore f Hin). apply Is_true_true, Hf.
Qed.

Lemma getBlogPosts_first_failure_witness :
  @getBlogPosts Demo.runtime
    (Demo.disk ["notes.txt"; "hello.mdx"; "broken.mdx"; "missing.mdx"])
  = Throw (LibraryError
      "YAMLException: unexpected end of the stream within a single quoted scalar").
Proof.
  apply (@getBlogPosts_first_failure Demo.runtime
           (Demo.disk ["notes.txt"; "hello.mdx"; "broken.mdx"; "missing.mdx"])
           ["notes.txt"; "hello.mdx"] ["missing.mdx"] "broken.mdx").
  - reflexivity.
  - repeat constructor.
    + intros Hext. discriminate Hext.
    + intros _. eexists. reflexivity.
  - reflexivity.
  - reflexivity.
Defined.

(** ** Paths that stay inside the content directory *)

Lemma concat_head (segments : list string) :
  segments <> [] -> Forall (fun segment => segment <> "") segments ->
  exists c rest, String.concat "/" segments = String c rest.
Proof.
  destruct segments as [|[|c s] segments]; intros Hne Hfull; [contradiction| |].
  - apply Forall_cons in Hfull as [Habsurd _]. contradiction.
  - destruct segments; eexists _, _; reflexivity.
Qed.

Lemma plain_cons_inv (c : ascii) (s : string) :
  plain (String c s) -> Ascii.eqb c "/" = false /\ plain s.
Proof.
  unfold plain. simpl. destruct (Ascii.eqb c "/") eqn:Hc; [discriminate|].
  intros Hsplit. split; [reflexivity|].
  destruct (path.split s) as [|segment segments] eqn:Hs;
    [destruct (split_nonempty s Hs)|].
  injection Hsplit as -> ->. reflexivity.
Qed.

Lemma plain_append (a b : string) : plain a -> plain b -> plain (a +:+ b).
Proof.
  induction a as [|c a IH]; intros Ha Hb; [exact Hb|].
  apply plain_cons_inv in Ha as [Hc Ha]. rewrite append_cons.
  unfold plain in *. rewrite split_cons_plain by exact Hc.
  rewrite (IH Ha Hb). reflexivity.
Qed.

Lemma plain_no_trailing_separator (name : string) :
  plain name -> endsWith name "/" = false.
Proof.
  intros Hplain. destruct (endsWith name "/") eqn:Hends; [|reflexivity].
  apply endsWith_cut in Hends. unfold plain in Hplain.
  rewrite <- Hends in Hplain at 1. rewrite split_app in Hplain.
  apply (f_equal length) in Hplain. rewrite length_app in Hplain.
  destruct (path.split (substring 0 (String.length name - String.length "/") name))
    eqn:Hsplit; [destruct (split_nonempty _ Hsplit)|].
  simpl in Hplain. lia.
Qed.

(** Joining a directory with a plain name puts the name under the
    directory. *)
Lemma join_child (absolute : bool) (stack : list string) (name : string) :
  settled (negb absolute) stack -> Forall plain stack -> stack <> [] ->
  plain name -> name <> "" -> name <> "." -> name <> ".." ->
  let dir := (if absolute then "/" else "") +:+ String.concat "/" (rev stack) in
  path.join [dir; name] = dir +:+ String "/" name.
Proof.
  intros Hsettled Hplain Hstack Hname Hne Hdot Hdots dir.
  assert (rev stack <> []) as Hrev.
  { intros Hnil. apply (f_equal (@rev string)) in Hnil.
    rewrite rev_involutive in Hnil. exact (Hstack Hnil). }
  assert (Forall plain (rev stack)) as Hplain' by (apply Forall_rev, Hplain).
  assert (Forall (fun segment => segment <> "") (rev stack)) as Hfull
    by (apply Forall_rev, (settled_nonempty _ _ Hsettled)).
  destruct (concat_head _ Hrev Hfull) as (c & rest & Hhead).
  assert (String.eqb name "" = false) as Hname' by (apply String.eqb_neq, Hne).
  rewrite join_two; [| |exact Hname'].
  2:{ unfold dir. rewrite Hhead. apply eqb_append_nonempty. }
  rewrite (normalize_stack _ absolute (name :: stack)).
  - unfold dir. simpl rev. rewrite concat_snoc by exact Hrev.
    rewrite append_assoc. reflexivity.
  - apply eqb_append_nonempty.
  - unfold dir. destruct absolute.
    + rewrite !append_cons, prefix_slash_cons.
      destruct (ascii_dec "/" "/"); [reflexivity | contradiction].
    + change ("" +:+ String.concat "/" (rev stack)) with (String.concat "/" (rev stack)).
      apply prefix_slash_concat; assumption.
  - rewrite (endsWith_append_tail dir (String "/" name) "/") by (simpl; lia).
    destruct name as [|c' name']; [contradiction|].
    change (String "/" (String c' name')) with ("/" +:+ String c' name').
    rewrite (endsWith_append_tail "/" (String c' name') "/") by (simpl; lia).
    apply plain_no_trailing_separator, Hname.
  - rewrite split_app, fold_left_app. unfold plain in Hname. rewrite Hname.
    assert (fold_left (path.normalize_step (negb absolute)) (path.split dir) [] = stack)
      as ->.
    { unfold dir. destruct absolute.
      + change (path.split ("/" +:+ String.concat "/" (rev stack)))
          with (EmptyString :: path.split (String.concat "/" (rev stack))).
        rewrite split_concat by assumption. change (negb true) with false in *.
        simpl fold_left at 1.
        change (path.normalize_step false [] "") with (@nil string).
        apply fold_normalize_step_rev, Hsettled.
      + change (path.split ("" +:+ String.concat "/" (rev stack)))
          with (path.split (String.concat "/" (rev stack))).
        rewrite split_concat by assumption.
        apply fold_normalize_step_rev, Hsettled. }
    simpl. unfold path.normalize_step.
    rewrite Hname'.
    rewrite (proj2 (String.eqb_neq name ".") Hdot), (proj2 (String.eqb_neq name "..") Hdots).
    reflexivity.
  - simpl rev. rewrite concat_snoc by exact Hrev. apply eqb_append_nonempty.
Qed.

Section Inside.
Context `{Runtime}.

(** The content directory is a stack of plain segments that ends in
    [src], [content], [blog]. *)
Lemma contentDirectory_stack :
  exists (absolute : bool) (stack : list string),
    settled (negb absolute) stack /\ Forall plain stack /\ stack <> [] /\
    contentDirectory = (if absolute then "/" else "") +:+ String.concat "/" (rev stack).
Proof.
  unfold contentDirectory. destruct cwd as [|c rest].
  - exists false, ["blog"; "content"; "src"].
    repeat split; try discriminate. repeat constructor.
  - pose proof (join_cwd_blog c rest) as Hjoin. simpl in Hjoin.
    set (absolute := String.prefix "/" (String c rest)) in *.
    set (stack := fold_left (path.normalize_step (negb absolute))
                    (path.split (String c rest)) []) in *.
    assert (settled (negb absolute) stack) as Hsettled
      by (apply fold_normalize_step_settled; exact I).
    assert (Forall plain stack) as Hplain
      by (apply fold_normalize_step_plain; [constructor | apply split_plain]).
    exists absolute, ("blog" :: "content" :: "src" :: stack).
    split; [repeat split; assumption|].
    split; [repeat constructor; assumption|].
    split; [discriminate|].
    rewrite Hjoin. simpl rev. rewrite <- !app_assoc. simpl app.
    change (rev stack ++ ["src"; "content"; "blog"])
      with (rev stack ++ ["src"; "content"] ++ ["blog"]).
    rewrite app_assoc, concat_snoc by (destruct (rev stack); discriminate).
    reflexivity.
Qed.

Lemma inside_child (dir name : string) : inside dir (dir +:+ String "/" name) = true.
Proof.
  unfold inside.
  replace (dir +:+ String "/" name) with ((dir +:+ "/") +:+ name)
    by apply append_assoc.
  induction (dir +:+ "/") as [|c s IH]; [destruct name; reflexivity|].
  rewrite append_cons. simpl. destruct (ascii_dec c c); [exact IH | contradiction].
Qed.

End Inside.

(** X14: the listing stays inside the content directory: for a directory
    entry that is a plain name (no separator, not empty, not [.] or [..],
    as [readdirSync] gives them), the file [getBlogPosts] reads is the
    entry under the content directory, whatever the working directory. *)
Theorem entry_path_inside `{Runtime} (file : string) :
  plain file -> file <> "" -> file <> "." -> file <> ".." ->
  path.join [contentDirectory; file] = contentDirectory +:+ String "/" file /\
  inside contentDirectory (path.join [contentDirectory; file]) = true.
Proof.
  intros Hplain Hne Hdot Hdots.
  destruct contentDirectory_stack as (absolute & stack & Hsettled & Hstack & Hnil & Hdir).
  assert (path.join [contentDirectory; file] = contentDirectory +:+ String "/" file)
    as Hjoin.
  { rewrite Hdir. apply join_child; assumption. }
  split; [exact Hjoin|]. rewrite Hjoin. apply inside_child.
Qed.

Lemma entry_path_inside_witness :
  @inside "/app/src/content/blog" "/app/src/content/blog/hello.mdx" = true.
Proof.
  apply (proj2 (@entry_path_inside Demo.runtime "hello.mdx"
                  eq_refl ltac:(discriminate) ltac:(discriminate) ltac:(discriminate))).
Defined.

(** X15: a slug without a path separator cannot leave the content
    directory: the file [getBlogPost] reads for it is [slug.mdx] under the
    content directory.  (With a separator it can: C10.) *)
Theorem slug_path_inside `{Runtime} (slug : string) :
  plain slug ->
  path.join [contentDirectory; slug +:+ ".mdx"]
    = contentDirectory +:+ String "/" (slug +:+ ".mdx") /\
  inside contentDirectory (path.join [contentDirectory; slug +:+ ".mdx"]) = true.
Proof.
  intros Hplain.
  assert (forall s, String.length s < 4 -> slug +:+ ".mdx" <> s)%nat as Hlen.
  { intros s Hs Heq. apply (f_equal String.length) in Heq.
    rewrite length_append in Heq. simpl in Heq. lia. }
  destruct contentDirectory_stack as (absolute & stack & Hsettled & Hstack & Hnil & Hdir).
  assert (path.join [contentDirectory; slug +:+ ".mdx"]
          = contentDirectory +:+ String "/" (slug +:+ ".mdx")) as Hjoin.
  { rewrite Hdir. apply join_child; try assumption.
    - apply plain_append; [exact Hplain | reflexivity].
    - apply Hlen. simpl. lia.
    - apply Hlen. simpl. lia.
    - apply Hlen. simpl. lia. }
  split; [exact Hjoin|]. rewrite Hjoin. apply inside_child.
Qed.

Lemma slug_path_inside_witness :
  @slugPath Demo.runtime "hello" = "/app/src/content/blog/hello.mdx" /\
  @inside "/app/src/content/blog" (@slugPath Demo.runtime "hello") = true.
Proof.
  split; [reflexivity|].
  apply (proj2 (@slug_path_inside Demo.runtime "hello" eq_refl)).
Defined.

(** [plain] is the absence of the separator character. *)
Lemma plain_no_separator (s : string) :
  plain s <-> Forall (fun c => c <> "/"%char) (list_ascii_of_string s).
Proof.
  induction s as [|c s IH]; simpl.
  - split; [constructor | reflexivity].
  - split.
    + intros [Hc Hs]%plain_cons_inv. constructor; [|apply IH, Hs].
      intros ->. discriminate Hc.
    + intros [Hc Hs]%Forall_cons. apply IH in Hs.
      unfold plain in *. rewrite split_cons_plain, Hs; [reflexivity|].
      apply Ascii.eqb_neq, Hc.
Qed.
